(** * kindle-character-dictionary: the GCIDE extractor and the lexicon merger

    A shallow embedding of [gcide2tab.py] (the markup extractor) and of
    [merge_gcide_with_characters.py] (the lexicon merger), and the
    properties of their tab-delimited output.

    Python [str] values are sequences of Unicode code points; they are
    modelled as lists of [N].  The functions of the Python library the two
    scripts call ([str.strip], [str.find], [str.replace], [str.splitlines],
    [re.sub], [re.split], [re.search], [html.unescape]) are modelled for
    the patterns the scripts use them with. *)

From Stdlib Require Import Ascii String.
From Stdlib Require Import List NArith ZArith Arith Bool Lia Permutation Sorted.
Import ListNotations.

Local Open Scope string_scope.
Local Open Scope list_scope.
Local Open Scope nat_scope.

(** ** Python strings *)

Definition char := N.
Definition str := list char.

(** An ASCII literal as a Python string. *)
Definition lit (s : string) : str := map N_of_ascii (list_ascii_of_string s).

Definition TAB : char := 9%N.
Definition LF : char := 10%N.
Definition CR : char := 13%N.
Definition SP : char := 32%N.

Fixpoint eqb_str (a b : str) : bool :=
  match a, b with
  | [], [] => true
  | x :: a', y :: b' => N.eqb x y && eqb_str a' b'
  | _, _ => false
  end.

(** [t.startswith(p)] *)
Fixpoint startswith (p t : str) : bool :=
  match p, t with
  | [], _ => true
  | x :: p', y :: t' => N.eqb x y && startswith p' t'
  | _ :: _, [] => false
  end.

(** [t[i:j]] for [0 <= i]; a missing lower bound is [None]. *)
Definition slice (t : str) (i : option nat) (j : nat) : str :=
  match i with
  | Some b => firstn (j - b) (skipn b t)
  | None => firstn j t
  end.

(** [t.find(sub, pos)]: the lowest index at or after [pos] where [sub]
    occurs; Python's [-1] is [None]. *)
Fixpoint find_from (sub t : str) (i : nat) : option nat :=
  if startswith sub t then Some i
  else match t with
       | [] => None
       | _ :: t' => find_from sub t' (S i)
       end.

Definition find (t sub : str) (pos : nat) : option nat :=
  if pos <=? length t then find_from sub (skipn pos t) pos else None.

(** [sub in t] *)
Definition contains (sub t : str) : bool :=
  match find t sub 0 with Some _ => true | None => false end.

(** [c.isspace()], which is also what [\s] matches in a [str] pattern. *)
Definition isspace (c : char) : bool :=
  ((9 <=? c) && (c <=? 13) || (28 <=? c) && (c <=? 32)
   || (c =? 133) || (c =? 160) || (c =? 5760)
   || (8192 <=? c) && (c <=? 8202)
   || (c =? 8232) || (c =? 8233) || (c =? 8239) || (c =? 8287)
   || (c =? 12288))%N.

Fixpoint lstrip (t : str) : str :=
  match t with
  | c :: t' => if isspace c then lstrip t' else t
  | [] => []
  end.

Definition rstrip (t : str) : str := rev (lstrip (rev t)).

(** [t.strip()] *)
Definition strip (t : str) : str := rstrip (lstrip t).

(** [sep.join(l)] *)
Fixpoint join (sep : str) (l : list str) : str :=
  match l with
  | [] => []
  | [a] => a
  | a :: l' => a ++ sep ++ join sep l'
  end.

(** ** Substitution and splitting on matches

    [re.sub], [re.split] and [str.replace] scan the text from left to
    right and act on the leftmost matches that do not overlap.  A matcher
    looks at the text from the current position on and says how long the
    match starting there is; every pattern of the two scripts matches at
    least one character.  After a match of length [n] the scan resumes
    [n] characters further: [skip] counts the characters of the match that
    are still to be passed over. *)

Fixpoint sub_scan (m : str -> option (nat * str)) (skip : nat) (t : str) : str :=
  match t with
  | [] => []
  | c :: t' =>
      match skip with
      | S k => sub_scan m k t'
      | O =>
          match m t with
          | Some (n, r) => r ++ sub_scan m (n - 1) t'
          | None => c :: sub_scan m 0 t'
          end
      end
  end.

Definition re_sub (m : str -> option (nat * str)) (t : str) : str :=
  sub_scan m 0 t.

Fixpoint split_scan (m : str -> option nat) (skip : nat) (cur : str) (t : str)
  : list str :=
  match t with
  | [] => [rev cur]
  | c :: t' =>
      match skip with
      | S k => split_scan m k cur t'
      | O =>
          match m t with
          | Some n => rev cur :: split_scan m (n - 1) [] t'
          | None => split_scan m 0 (c :: cur) t'
          end
      end
  end.

Definition re_split (m : str -> option nat) (t : str) : list str :=
  split_scan m 0 [] t.

(** [t.replace(old, new)] for a non-empty [old]. *)
Definition replace (old new : str) (t : str) : str :=
  re_sub (fun u => if startswith old u then Some (length old, new) else None) t.

(** The longest prefix of [t] whose characters satisfy [p], and its length. *)
Fixpoint run (p : char -> bool) (t : str) : nat :=
  match t with
  | c :: t' => if p c then S (run p t') else 0
  | [] => 0
  end.

(** ** The patterns of [gcide2tab.py] *)

Definition LT : char := 60%N.
Definition GT : char := 62%N.

(** [<[^>]+>] at the head of the text: [<], one or more characters other
    than [>], then [>].  The greedy class stops at the first [>], so no
    shorter repetition can match. *)
Definition match_tag (t : str) : option (nat * str) :=
  match t with
  | c :: u =>
      if (c =? LT)%N then
        let k := run (fun x => negb (x =? GT)%N) u in
        match k, skipn k u with
        | S _, _ :: _ => Some (k + 2, [])
        | _, _ => None
        end
      else None
  | [] => None
  end.

Definition strip_tags (text : str) : str := re_sub match_tag text.

(** [\s+] at the head of the text, replaced by one space. *)
Definition match_spaces (t : str) : option (nat * str) :=
  match run isspace t with
  | O => None
  | n => Some (n, [SP])
  end.

Definition collapse_spaces (text : str) : str := re_sub match_spaces text.

(** [<p>\s*<ent>] at the head of the text. *)
Definition match_entry_start (t : str) : option nat :=
  if startswith (lit "<p>") t then
    let u := skipn 3 t in
    let k := run isspace u in
    if startswith (lit "<ent>") (skipn k u) then Some (3 + k + 5) else None
  else None.

(** The headword pattern at the head of the text: [<hw>], a group of any
    number of characters other than [<], then [</hw>]; the result is the
    group. *)
Definition match_hw (t : str) : option str :=
  if startswith (lit "<hw>") t then
    let u := skipn 4 t in
    let k := run (fun x => negb (x =? LT)%N) u in
    if startswith (lit "</hw>") (skipn k u) then Some (firstn k u) else None
  else None.

(** [re.search] with the headword pattern: group 1 of the leftmost match. *)
Fixpoint search_hw (t : str) : option str :=
  match match_hw t with
  | Some g => Some g
  | None => match t with
            | [] => None
            | _ :: t' => search_hw t'
            end
  end.

(** ** Results of loops that may not terminate

    The [while] loops of [gcide2tab.py] are modelled with a fuel counter:
    [OutOfFuel] says that the loop was still running when the fuel ran
    out, [Ret] that it returned. *)

Inductive result (A : Type) : Type :=
| OutOfFuel : result A
| Ret : A -> result A.

Arguments OutOfFuel {A}.
Arguments Ret {A} _.

Definition bind {A B : Type} (r : result A) (k : A -> result B) : result B :=
  match r with
  | OutOfFuel => OutOfFuel
  | Ret a => k a
  end.

Notation "'do' x <- r ;; k" := (bind r (fun x => k))
  (at level 10, x name, r at level 100, k at level 200).

(** ** [html.unescape] *)

Definition AMP : char := 38%N.
Definition HASH : char := 35%N.
Definition SEMI : char := 59%N.

Definition isdigit (c : char) : bool := ((48 <=? c) && (c <=? 57))%N.

Definition ishex (c : char) : bool :=
  (isdigit c || (97 <=? c) && (c <=? 102) || (65 <=? c) && (c <=? 70))%N.

(** [[^\t\n\f <&#;]] *)
Definition isname (c : char) : bool :=
  negb ((c =? 9) || (c =? 10) || (c =? 12) || (c =? SP) || (c =? LT)
        || (c =? AMP) || (c =? HASH) || (c =? SEMI))%N.

Definition digit_value (c : char) : N :=
  (if isdigit c then c - 48 else if 97 <=? c then c - 87 else c - 55)%N.

(** [int(ds, base)] on a string of digits.  Python's [int] refuses a
    decimal string of more than 4300 digits with a [ValueError]; the
    model gives the number all the same, so it stands for [int] on the
    decimal references of at most 4300 digits, and on every hexadecimal
    one. *)
Definition int (ds : str) (base : N) : N :=
  fold_left (fun acc d => (acc * base + digit_value d)%N) ds 0%N.

(** [s.rstrip(';')] *)
Definition rstrip_semi (s : str) : str :=
  rev ((fix drop (t : str) : str :=
          match t with
          | c :: t' => if (c =? SEMI)%N then drop t' else t
          | [] => []
          end) (rev s)).

(** The numeric references that HTML5 maps to another character. *)
Definition _invalid_charrefs : list (N * str) :=
  [ (0x00, [0xfffd]); (0x0d, [0x0d]); (0x80, [0x20ac]); (0x81, [0x81]);
    (0x82, [0x201a]); (0x83, [0x0192]); (0x84, [0x201e]); (0x85, [0x2026]);
    (0x86, [0x2020]); (0x87, [0x2021]); (0x88, [0x02c6]); (0x89, [0x2030]);
    (0x8a, [0x0160]); (0x8b, [0x2039]); (0x8c, [0x0152]); (0x8d, [0x8d]);
    (0x8e, [0x017d]); (0x8f, [0x8f]); (0x90, [0x90]); (0x91, [0x2018]);
    (0x92, [0x2019]); (0x93, [0x201c]); (0x94, [0x201d]); (0x95, [0x2022]);
    (0x96, [0x2013]); (0x97, [0x2014]); (0x98, [0x02dc]); (0x99, [0x2122]);
    (0x9a, [0x0161]); (0x9b, [0x203a]); (0x9c, [0x0153]); (0x9d, [0x9d]);
    (0x9e, [0x017e]); (0x9f, [0x0178]) ]%N.

(** The set [_invalid_codepoints]: the ranges 0x1 to 0x8, 0xe to 0x1f,
    0x7f to 0x9f and 0xfdd0 to 0xfdef, 0xb, and the last two code points
    of each of the seventeen planes. *)
Definition _invalid_codepoints (n : N) : bool :=
  ((0x1 <=? n) && (n <=? 0x8) || (0xe <=? n) && (n <=? 0x1f)
   || (0x7f <=? n) && (n <=? 0x9f) || (0xfdd0 <=? n) && (n <=? 0xfdef)
   || (n =? 0xb)
   || (n <=? 0x10ffff)
      && ((N.land n 0xffff =? 0xfffe) || (N.land n 0xffff =? 0xffff)))%N.

Fixpoint assoc {B : Type} (k : N) (l : list (N * B)) : option B :=
  match l with
  | [] => None
  | (k', v) :: l' => if (k =? k')%N then Some v else assoc k l'
  end.

(** The pattern [_charref] at the head of the text: [&] and then a
    decimal reference, a hexadecimal reference or a name of 1 to 32
    characters, each with an optional [;].  The result is the length of
    the whole match and group 1. *)
Definition match_charref (t : str) : option (nat * str) :=
  let semi (v : str) : nat :=
    match v with c :: _ => if (c =? SEMI)%N then 1 else 0 | [] => 0 end in
  match t with
  | a :: u =>
      if negb (a =? AMP)%N then None
      else
        match u with
        | [] => None
        | h :: v =>
            if (h =? HASH)%N then
              match run isdigit v with
              | S _ as k =>
                  let n := 1 + k + semi (skipn k v) in
                  Some (1 + n, firstn n u)
              | O =>
                  match v with
                  | x :: w =>
                      if ((x =? 120) || (x =? 88))%N then
                        match run ishex w with
                        | S _ as k =>
                            let n := 2 + k + semi (skipn k w) in
                            Some (1 + n, firstn n u)
                        | O => None
                        end
                      else None
                  | [] => None
                  end
              end
            else
              match Nat.min 32 (run isname u) with
              | S _ as k =>
                  let n := k + semi (skipn k u) in
                  Some (1 + n, firstn n u)
              | O => None
              end
        end
  | [] => None
  end.

Module Gcide2tab.

Section Extractor.

(** The table [html.entities.html5] of the Python library: the named
    character references ([s in _html5] and [_html5[s]]). *)
Variable _html5 : str -> option str.

(** The [for x in range(len(s)-1, 1, -1)] loop of [_replace_charref]. *)
Fixpoint longest_name (s : str) (x : nat) : str :=
  match x with
  | S x' =>
      if x <? 2 then AMP :: s
      else match _html5 (firstn x s) with
           | Some r => r ++ skipn x s
           | None => longest_name s x'
           end
  | O => AMP :: s
  end.

Definition _replace_charref (s : str) : str :=
  match s with
  | c :: _ =>
      if (c =? HASH)%N then
        let x := nth 1 s 0%N in
        let num :=
          if ((x =? 120) || (x =? 88))%N
          then int (rstrip_semi (skipn 2 s)) 16
          else int (rstrip_semi (skipn 1 s)) 10 in
        match assoc num _invalid_charrefs with
        | Some r => r
        | None =>
            if ((0xD800 <=? num) && (num <=? 0xDFFF) || (0x10FFFF <? num))%N
            then [0xFFFD%N]
            else if _invalid_codepoints num then []
            else [num]
        end
      else
        match _html5 s with
        | Some r => r
        | None => longest_name s (length s - 1)
        end
  | [] => []
  end.

Definition unescape (s : str) : str :=
  if negb (contains [AMP] s) then s
  else re_sub (fun t => match match_charref t with
                        | Some (n, g) => Some (n, _replace_charref g)
                        | None => None
                        end) s.

(** ** [gcide2tab.py] *)

Definition replacements : list (str * str) :=
  [ (lit "&ebreve_;", [0x0115%N]);
    (lit "&emacr;", [0x0113%N]);
    (lit "&ocirc;", [0x00f4%N]);
    (lit "&eitalic_;", [0x00e9%N]);
    (lit "&omacr;", [0x014d%N]);
    (lit "&ubreve_;", [0x016d%N]);
    (lit "&ibreve_;", [0x012d%N]);
    (lit "&abreve_;", [0x0103%N]) ].

Definition decode_entities (text : str) : str :=
  fold_left (fun text '(ent, ch) => replace ent ch text)
            replacements (unescape text).

(** The [while i < len(entry_text)] loop of [extract_def_content].  Every
    turn moves [i] forward, so [S (length entry_text)] turns are enough
    (lemma [extract_def_content_returns]). *)
Fixpoint def_loop (fuel : nat) (entry_text : str) (start : nat)
         (depth : Z) (i : nat) (begin : option nat)
  : result (option str * nat) :=
  match fuel with
  | O => OutOfFuel
  | S fuel' =>
      if i <? length entry_text then
        if eqb_str (slice entry_text (Some i) (i + 5)) (lit "<def>") then
          def_loop fuel' entry_text start (depth + 1) (i + 5)
                   (if (depth =? 0)%Z then Some (i + 5) else begin)
        else if eqb_str (slice entry_text (Some i) (i + 6)) (lit "</def>") then
          let depth := (depth - 1)%Z in
          if (depth =? 0)%Z then Ret (Some (slice entry_text begin i), i + 6)
          else def_loop fuel' entry_text start depth (i + 6) begin
        else def_loop fuel' entry_text start depth (i + 1) begin
      else Ret (None, start)
  end.

Definition extract_def_content (entry_text : str) (start : nat)
  : result (option str * nat) :=
  def_loop (S (length entry_text)) entry_text start 0%Z start None.

(** The [while True] loop of [extract_entry]: [pos] and [defs] are its
    variables. *)
Fixpoint defs_loop (fuel : nat) (entry_text : str) (pos : nat)
         (defs : list str) : result (list str) :=
  match fuel with
  | O => OutOfFuel
  | S fuel' =>
      match find entry_text (lit "<def>") pos with
      | None => Ret defs
      | Some idx =>
          do r <- extract_def_content entry_text idx ;;
          let '(def_content, end_pos) := r in
          let defs :=
            match def_content with
            | Some def_content =>
                let plain := strip_tags def_content in
                let plain := strip (collapse_spaces plain) in
                match plain with
                | [] => defs
                | _ :: _ => defs ++ [plain]
                end
            | None => defs
            end in
          defs_loop fuel' entry_text end_pos defs
      end
  end.

Definition extract_entry (fuel : nat) (entry_text : str)
  : result (option (str * str)) :=
  match search_hw entry_text with
  | None => Ret None
  | Some group1 =>
      let headword := strip group1 in
      do defs <- defs_loop fuel entry_text 0 [] ;;
      match defs with
      | [] => Ret None
      | _ :: _ =>
          let headword := decode_entities headword in
          let definition := join (lit "; ") defs in
          let definition := decode_entities definition in
          let definition :=
            replace [CR] [SP] (replace [LF] [SP] (replace [TAB] [SP] definition)) in
          let definition := strip (collapse_spaces definition) in
          Ret (Some (headword, definition))
      end
  end.

(** The dictionary [out_entries]: a Python [dict] keeps its keys in
    insertion order, and an assignment to a key that is present replaces
    the value in place. *)
Definition dict := list (str * str).

Fixpoint dict_get (k : str) (d : dict) : option str :=
  match d with
  | [] => None
  | (k', v) :: d' => if eqb_str k k' then Some v else dict_get k d'
  end.

Fixpoint dict_set (k v : str) (d : dict) : dict :=
  match d with
  | [] => [(k, v)]
  | (k', v') :: d' =>
      if eqb_str k k' then (k, v) :: d' else (k', v') :: dict_set k v d'
  end.

Definition keys (d : dict) : list str := map fst d.

(** The body of the [for block in blocks] loop of [process_file]. *)
Definition process_block (fuel : nat) (out_entries : dict) (block : str)
  : result dict :=
  if negb (contains (lit "<hw>") block) || negb (contains (lit "<def>") block)
  then Ret out_entries
  else
    let entry_text := lit "<p><ent>" ++ block in
    do r <- extract_entry fuel entry_text ;;
    match r with
    | Some (headword, definition) =>
        match dict_get headword out_entries with
        | None => Ret (dict_set headword definition out_entries)
        | Some old =>
            Ret (dict_set headword (old ++ lit "; " ++ definition) out_entries)
        end
    | None => Ret out_entries
    end.

Fixpoint process_blocks (fuel : nat) (out_entries : dict) (blocks : list str)
  : result dict :=
  match blocks with
  | [] => Ret out_entries
  | block :: blocks' =>
      do d <- process_block fuel out_entries block ;;
      process_blocks fuel d blocks'
  end.

(** [process_file]: [text] is what [path.read_text] returns, the content
    of the file decoded with [errors='replace']. *)
Definition process_file (fuel : nat) (text : str) (out_entries : dict)
  : result dict :=
  process_blocks fuel out_entries (re_split match_entry_start text).

(** Order of [str] values: by code point, then by length. *)
Fixpoint ltb_str (a b : str) : bool :=
  match a, b with
  | _, [] => false
  | [], _ :: _ => true
  | x :: a', y :: b' => (x <? y)%N || (x =? y)%N && ltb_str a' b'
  end.

Definition leb_str (a b : str) : bool := negb (ltb_str b a).

Fixpoint insort (x : str) (l : list str) : list str :=
  match l with
  | [] => [x]
  | y :: l' => if leb_str x y then x :: l else y :: insort x l'
  end.

(** [sorted(l)] for a list of strings (a stable sort). *)
Definition sorted (l : list str) : list str := fold_right insort [] l.

(** What [main] sees of the file system: the input directory (if it is
    one, the names and the decoded contents of its files, in the order
    the directory lists them), whether the parent directory of the output
    path exists, and the output file.  The output file is a field of its
    own: the model is for an output path that does not lie in the input
    directory, so that writing it changes no file of the listing. *)
Record world : Type := {
  xml_dir : option (list (str * str));
  out_parent : bool;
  out_file : option str
}.

Fixpoint dir_get (name : str) (listing : list (str * str)) : option str :=
  match listing with
  | [] => None
  | (n, text) :: l' => if eqb_str name n then Some text else dir_get name l'
  end.

Definition alphabet : str := lit "abcdefghijklmnopqrstuvwxyz".

Definition letter_file (c : char) : str := lit "gcide_" ++ [c] ++ lit ".xml".

(** [output_path.parent.mkdir(parents=True, exist_ok=True)] *)
Definition mkdir_out_parent (w : world) : world :=
  {| xml_dir := xml_dir w; out_parent := true; out_file := out_file w |}.

(** [open(output_path, 'w')], the writes and the close. *)
Definition write_out (w : world) (content : str) : world :=
  {| xml_dir := xml_dir w; out_parent := out_parent w;
     out_file := Some content |}.

(** The lines [main] writes: the headword as written and the definition. *)
Definition out_lines (entries : dict) : list (str * str) :=
  map (fun headword =>
         let defn := match dict_get headword entries with
                     | Some v => v
                     | None => []
                     end in
         let h := strip (replace [LF] [SP] (replace [TAB] [SP] headword)) in
         (h, defn))
      (sorted (keys entries)).

Definition render (lines : list (str * str)) : str :=
  concat (map (fun '(h, defn) => h ++ [TAB] ++ defn ++ [LF]) lines).

Fixpoint process_files (fuel : nat) (listing : list (str * str))
         (files : list str) (entries : dict) : result (option dict) :=
  match files with
  | [] => Ret (Some entries)
  | f :: files' =>
      match dir_get f listing with
      | None => Ret None
      | Some text =>
          do d <- process_file fuel text entries ;;
          process_files fuel listing files' d
      end
  end.

(** [main]: the exit status and the file system it leaves.  The messages
    printed on the way are not modelled.  A file that cannot be read
    raises an exception nobody catches: status 1. *)
Definition main (fuel : nat) (w : world) : result (Z * world) :=
  match xml_dir w with
  | None => Ret (1%Z, w)
  | Some listing =>
      let w := mkdir_out_parent w in
      let letter_files :=
        filter (fun f => match dir_get f listing with
                         | Some _ => true
                         | None => false
                         end)
               (map letter_file alphabet) in
      match letter_files with
      | [] => Ret (1%Z, w)
      | _ :: _ =>
          do r <- process_files fuel listing (sorted letter_files) [] ;;
          match r with
          | None => Ret (1%Z, w)
          | Some entries => Ret (0%Z, write_out w (render (out_lines entries)))
          end
      end
  end.

End Extractor.

End Gcide2tab.

(** ** [merge_gcide_with_characters.py] *)

Module Merge.

(** [c] is a line boundary for [str.splitlines]. *)
Definition islinebreak (c : char) : bool :=
  ((10 <=? c) && (c <=? 13) || (28 <=? c) && (c <=? 30)
   || (c =? 133) || (c =? 8232) || (c =? 8233))%N.

(** [t.splitlines()]: the lines without their boundaries; a carriage
    return followed by a line feed is one boundary, and a boundary at the
    end of the text opens no last line. *)
Fixpoint splitlines_scan (after_cr : bool) (cur : str) (t : str) : list str :=
  match t with
  | [] => match cur with [] => [] | _ :: _ => [rev cur] end
  | c :: t' =>
      if after_cr && (c =? LF)%N then splitlines_scan false cur t'
      else if islinebreak c then rev cur :: splitlines_scan (c =? CR)%N [] t'
      else splitlines_scan false (c :: cur) t'
  end.

Definition splitlines (t : str) : list str := splitlines_scan false [] t.

(** [ln.split('\t', 1)] on a line that contains a tab. *)
Fixpoint split_tab (ln : str) : str * str :=
  match ln with
  | [] => ([], [])
  | c :: ln' =>
      if (c =? TAB)%N then ([], ln')
      else let '(h, d) := split_tab ln' in (c :: h, d)
  end.

Definition BOOK_CONFIG : list (str * (str * str)) :=
  [ (lit "speaker-for-the-dead",
     (lit "speaker-characters.txt", lit "speaker-characters-and-gcide")) ].

Fixpoint config (book_folder : str) (l : list (str * (str * str)))
  : option (str * str) :=
  match l with
  | [] => None
  | (k, v) :: l' => if eqb_str book_folder k then Some v else config book_folder l'
  end.

(** What [main] sees of the file system: [dictionaries/gcide/gcide.txt]
    and, for every directory [dictionaries/<book_folder>] that exists,
    the names and contents of its files.  The contents are texts: the
    model is for files that are valid UTF-8, which [read_text] decodes;
    on another file [read_text] raises and [main] ends there, after the
    checks and before it writes. *)
Record world : Type := {
  gcide_txt : option str;
  book_dirs : list (str * list (str * str))
}.

Fixpoint files_of (book_folder : str) (dirs : list (str * list (str * str)))
  : option (list (str * str)) :=
  match dirs with
  | [] => None
  | (k, fs) :: dirs' =>
      if eqb_str book_folder k then Some fs else files_of book_folder dirs'
  end.

Fixpoint file_get (name : str) (fs : list (str * str)) : option str :=
  match fs with
  | [] => None
  | (n, text) :: fs' => if eqb_str name n then Some text else file_get name fs'
  end.

Fixpoint file_set (name text : str) (fs : list (str * str)) : list (str * str) :=
  match fs with
  | [] => [(name, text)]
  | (n, old) :: fs' =>
      if eqb_str name n then (n, text) :: fs' else (n, old) :: file_set name text fs'
  end.

Fixpoint dirs_set (book_folder : str) (fs : list (str * str))
         (dirs : list (str * list (str * str))) : list (str * list (str * str)) :=
  match dirs with
  | [] => [(book_folder, fs)]
  | (k, old) :: dirs' =>
      if eqb_str book_folder k then (k, fs) :: dirs'
      else (k, old) :: dirs_set book_folder fs dirs'
  end.

(** The content of [dictionaries/<book_folder>/<name>], if the file
    exists. *)
Definition read_file (book_folder name : str) (w : world) : option str :=
  match files_of book_folder (book_dirs w) with
  | Some fs => file_get name fs
  | None => None
  end.

(** [book_dir.mkdir(parents=True, exist_ok=True)] *)
Definition mkdir_book (book_folder : str) (w : world) : world :=
  match files_of book_folder (book_dirs w) with
  | Some _ => w
  | None => {| gcide_txt := gcide_txt w;
               book_dirs := dirs_set book_folder [] (book_dirs w) |}
  end.

(** [open(output_path, 'w')], the writes and the close. *)
Definition write_out (book_folder name content : str) (w : world) : world :=
  let fs := match files_of book_folder (book_dirs w) with
            | Some fs => fs
            | None => []
            end in
  {| gcide_txt := gcide_txt w;
     book_dirs := dirs_set book_folder (file_set name content fs) (book_dirs w) |}.

(** [path.read_text(encoding='utf-8').strip().splitlines()] *)
Definition read_lines (text : str) : list str := splitlines (strip text).

(** [[ln for ln in char_lines if ln.strip()]] *)
Definition nonblank (lines : list str) : list str :=
  filter (fun ln => match strip ln with [] => false | _ :: _ => true end) lines.

Definition CHAR_TAG : str := lit "[Character] ".

(** What the second loop writes for one line, without the final line
    feed. *)
Definition char_line (ln : str) : str :=
  if existsb (N.eqb TAB) ln then
    let '(headword, definition) := split_tab ln in
    headword ++ [TAB] ++ CHAR_TAG ++ definition
  else ln.

(** The lines of the union file, each written with a line feed after it. *)
Definition union_lines (gcide_lines char_lines : list str) : list str :=
  gcide_lines ++ map char_line char_lines.

Definition render (lines : list str) : str :=
  concat (map (fun ln => ln ++ [LF]) lines).

(** How far [main] got: it left with an exit status, or it wrote the
    union file and went on to run the packaging tools ([tab2opf] and
    [kindlegen], which are other programs). *)
Inductive outcome : Type :=
| Exit (status : Z) (w : world)
| Packaging (w : world).

(** [main] up to the end of the [with open(output_path, 'w')] block;
    [argv] is [sys.argv].  The messages printed are not modelled. *)
Definition main (argv : list str) (w : world) : outcome :=
  match argv with
  | [] | [_] => Exit 1 w
  | _ :: book_folder :: _ =>
      match config book_folder BOOK_CONFIG with
      | None => Exit 1 w
      | Some (char_file_name, output_basename) =>
          match gcide_txt w with
          | None => Exit 1 w
          | Some gcide_text =>
              match read_file book_folder char_file_name w with
              | None => Exit 1 w
              | Some char_text =>
                  let w := mkdir_book book_folder w in
                  let gcide_lines := read_lines gcide_text in
                  let char_lines := nonblank (read_lines char_text) in
                  Packaging
                    (write_out book_folder (output_basename ++ lit ".txt")
                       (render (union_lines gcide_lines char_lines)) w)
              end
          end
      end
  end.

End Merge.

(** ** Example inputs *)

(** Some rows of [html.entities.html5], to run the extractor on examples. *)
Definition html5_rows : list (str * str) :=
  [ (lit "amp;", [38%N]); (lit "amp", [38%N]);
    (lit "lt;", [60%N]); (lit "lt", [60%N]);
    (lit "gt;", [62%N]); (lit "gt", [62%N]);
    (lit "emacr;", [0x113%N]); (lit "omacr;", [0x14d%N]);
    (lit "ocirc;", [0xf4%N]); (lit "ocirc", [0xf4%N]);
    (lit "eacute;", [0xe9%N]); (lit "eacute", [0xe9%N]) ].

Definition html5_excerpt (s : str) : option str :=
  Gcide2tab.dict_get s html5_rows.

(** An entry block whose [<def>] is never closed, a letter file made of
    that entry, and a directory that holds the file. *)
Definition unclosed_entry : str :=
  lit "<p><ent>a</ent><hw>a</hw><def>an unclosed definition".

Definition unclosed_world : Gcide2tab.world :=
  {| Gcide2tab.xml_dir := Some [(lit "gcide_a.xml", unclosed_entry)];
     Gcide2tab.out_parent := true;
     Gcide2tab.out_file := None |}.

(** The entry of the nesting example. *)
Definition nested_markup : str := lit "<def>outer <def>inner</def> text</def>".

Definition nested_entry : str :=
  lit "<p><ent>x</ent><hw>x</hw>" ++ nested_markup ++ lit "</p>".

(** The two letter files of the end-to-end example, and the directory
    that holds them, listed in either order. *)
Definition apple_a : str :=
  lit "<p><ent>apple</ent><br/><hw>apple</hw> <def>a fruit</def></p>".

Definition apple_b : str :=
  lit "<p><ent>apple</ent><br/><hw>apple</hw> <def>to polish</def></p>".

Definition apple_world : Gcide2tab.world :=
  {| Gcide2tab.xml_dir :=
       Some [(lit "gcide_a.xml", apple_a); (lit "gcide_b.xml", apple_b)];
     Gcide2tab.out_parent := false;
     Gcide2tab.out_file := None |}.

Definition apple_world_rev : Gcide2tab.world :=
  {| Gcide2tab.xml_dir :=
       Some [(lit "gcide_b.xml", apple_b); (lit "gcide_a.xml", apple_a)];
     Gcide2tab.out_parent := false;
     Gcide2tab.out_file := None |}.

Definition apple_output : str :=
  lit "apple" ++ [TAB] ++ lit "a fruit; to polish" ++ [LF].

(** A letter file with two entries whose headwords differ only in the
    white space between their two words: a tab in the first, a space in
    the second. *)
Definition clash_text : str :=
  lit "<p><ent>a b</ent><hw>a" ++ [TAB] ++ lit "b</hw><def>first</def></p>"
  ++ [LF]
  ++ lit "<p><ent>a b</ent><hw>a b</hw><def>second</def></p>".

Definition clash_world : Gcide2tab.world :=
  {| Gcide2tab.xml_dir := Some [(lit "gcide_a.xml", clash_text)];
     Gcide2tab.out_parent := true;
     Gcide2tab.out_file := None |}.

(** An input directory without letter files, and an output path whose
    directory does not exist yet. *)
Definition no_letters_world : Gcide2tab.world :=
  {| Gcide2tab.xml_dir := Some [(lit "README", lit "GCIDE")];
     Gcide2tab.out_parent := false;
     Gcide2tab.out_file := None |}.

(** A letter file whose headword holds a numeric character reference and
    no named one. *)
Definition accent_text : str :=
  lit "<p><ent>cafe</ent><hw>caf&#233;</hw><def>a coffee house</def></p>".

Definition accent_world : Gcide2tab.world :=
  {| Gcide2tab.xml_dir := Some [(lit "gcide_c.xml", accent_text)];
     Gcide2tab.out_parent := true;
     Gcide2tab.out_file := None |}.

(** A letter file whose headword holds a named reference of HTML5, a
    numeric reference and an entity of the custom table. *)
Definition mixed_text : str :=
  lit "<p><ent>x</ent><hw>R&amp;D caf&#233; B&ebreve_;de</hw><def>three kinds</def></p>".

Definition mixed_world : Gcide2tab.world :=
  {| Gcide2tab.xml_dir := Some [(lit "gcide_r.xml", mixed_text)];
     Gcide2tab.out_parent := true;
     Gcide2tab.out_file := None |}.

Definition mixed_headword : str :=
  lit "R&D caf" ++ [233%N] ++ lit " B" ++ [0x115%N] ++ lit "de".




(** ** Predicates of the statements *)

(** A field that cannot break the line format: its only white space is
    the plain space, so it holds no tab, no line feed and no other line
    boundary. *)
Definition single_line (d : str) : Prop :=
  forall c, In c d -> isspace c = true -> c = SP.

Definition all_single_line (d : Gcide2tab.dict) : Prop :=
  Forall (fun kv => single_line (snd kv)) d.

(** What a run of the extractor leaves to be seen: its exit status, the
    directory of the output path and the output file. *)
Definition observe (r : result (Z * Gcide2tab.world))
  : result (Z * bool * option str) :=
  match r with
  | OutOfFuel => OutOfFuel
  | Ret (status, w) =>
      Ret (status, Gcide2tab.out_parent w, Gcide2tab.out_file w)
  end.

(** The merge example: a base lexicon and a character list that both
    have the headword [dog]. *)
Definition book : str := lit "speaker-for-the-dead".

Definition merge_argv : list str := [lit "merge_gcide_with_characters.py"; book].

Definition dog_base : str := lit "dog" ++ [TAB] ++ lit "a canine" ++ [LF].

Definition dog_sup : str :=
  lit "dog" ++ [TAB] ++ lit "loyal companion of the hero" ++ [LF].

Definition merge_world (gcide_text char_text : str) : Merge.world :=
  {| Merge.gcide_txt := Some gcide_text;
     Merge.book_dirs := [(book, [(lit "speaker-characters.txt", char_text)])] |}.

Definition union_name : str := lit "speaker-characters-and-gcide.txt".

(** A character list whose definition holds a tab. *)
Definition tabbed_sup : str :=
  lit "dog" ++ [TAB] ++ lit "loyal" ++ [TAB] ++ lit "companion" ++ [LF].


(** No two white-space characters in a row. *)
Fixpoint no_double_space (t : str) : bool :=
  match t with
  | a :: (b :: _) as t' => negb (isspace a && isspace b) && no_double_space t'
  | _ => true
  end.

(** Every [<def>] of the text has its [</def>]: checked at each
    position. *)
Definition all_defs_closed (t : str) : bool :=
  forallb
    (fun idx =>
       match find t (lit "<def>") idx with
       | Some j =>
           if j =? idx then
             match Gcide2tab.extract_def_content t idx with
             | Ret (Some _, _) => true
             | _ => false
             end
           else true
       | None => true
       end)
    (seq 0 (S (length t))).

(** A line that begins, or ends, with a character that is not white
    space. *)
Definition starts_solid (ln : str) : Prop :=
  exists c r, ln = c :: r /\ isspace c = false.

Definition ends_solid (ln : str) : Prop :=
  exists r c, ln = r ++ [c] /\ isspace c = false.

(** ** The packaging steps of [merge_gcide_with_characters.py] *)

Module Packaging.

(** What the script sees of the system it runs on: the environment
    variables ([os.environ.get]), the program search path
    ([shutil.which]), [sys.platform], [os.path.join], [os.path.isfile]
    and [Path.exists] on paths outside the dictionaries, and the two
    programs it runs with [subprocess.run]: each is given the directory
    it runs in and its file argument, and returns its return code and
    the files it leaves. *)
Record system : Type := {
  environ : str -> option str;
  which : str -> option str;
  platform : str;
  path_join : list str -> str;
  isfile : str -> bool;
  path_exists : str -> bool;
  run_tab2opf : str -> str -> Merge.world -> Z * Merge.world;
  run_kindlegen : str -> str -> str -> Merge.world -> Z * Merge.world
}.

(** The truth value of an optional string: [None] and the empty string
    are false. *)
Definition truthy (v : option str) : bool :=
  match v with
  | Some (_ :: _) => true
  | _ => false
  end.

Definition find_kindlegen (s : system) : option str :=
  let env_path := environ s (lit "KINDLEGEN") in
  if truthy env_path then
    match env_path with Some v => Some (strip v) | None => None end
  else
    let path := which s (lit "kindlegen") in
    if truthy path then path
    else if eqb_str (platform s) (lit "win32") then
      let local_app := match environ s (lit "LOCALAPPDATA") with
                       | Some v => v
                       | None => []
                       end in
      List.find (isfile s)
        (map (fun name =>
                path_join s [local_app; lit "Amazon"; name; lit "lib";
                             lit "fc"; lit "bin"; lit "kindlegen.exe"])
             [lit "Kindle Previewer 3"; lit "Kindle Previewer"])
    else None.

(** [main] from [print('Running tab2opf...')] to its end: the status the
    script ends with and the files it leaves.  [book_folder] and
    [output_basename] are the variables of [main]. *)
Definition packaging (s : system) (book_folder output_basename : str)
           (w : Merge.world) : Z * Merge.world :=
  let '(returncode, w) :=
    run_tab2opf s book_folder (output_basename ++ lit ".txt") w in
  if negb (returncode =? 0)%Z then (returncode, w)
  else
    match Merge.read_file book_folder (output_basename ++ lit ".opf") w with
    | None => (1%Z, w)
    | Some _ =>
        let kindlegen := find_kindlegen s in
        if negb (truthy kindlegen) then (1%Z, w)
        else
          let exe := match kindlegen with Some k => k | None => [] end in
          if truthy (environ s (lit "KINDLEGEN")) && negb (path_exists s exe)
          then (1%Z, w)
          else
            let '(returncode, w) :=
              run_kindlegen s exe book_folder (output_basename ++ lit ".opf") w in
            if negb ((returncode =? 0)%Z || (returncode =? 1)%Z)
            then (returncode, w)
            else (0%Z, w)
    end.

End Packaging.

(** A system where [kindlegen] is on the search path, [tab2opf] writes
    the OPF file and [kindlegen] ends with warnings; and the same system
    with [KINDLEGEN] set to a blank. *)
Definition path_system : Packaging.system :=
  {| Packaging.environ := fun _ => None;
     Packaging.which := fun _ => Some (lit "/usr/bin/kindlegen");
     Packaging.platform := lit "linux";
     Packaging.path_join := join (lit "/");
     Packaging.isfile := fun _ => false;
     Packaging.path_exists := fun _ => true;
     Packaging.run_tab2opf :=
       fun folder name w =>
         (0%Z, Merge.write_out folder (lit "speaker-characters-and-gcide.opf")
                               (lit "<package/>") w);
     Packaging.run_kindlegen := fun _ _ _ w => (1%Z, w) |}.

Definition blank_env_system : Packaging.system :=
  {| Packaging.environ :=
       fun name => if eqb_str name (lit "KINDLEGEN") then Some (lit "  ")
                   else None;
     Packaging.which := Packaging.which path_system;
     Packaging.platform := Packaging.platform path_system;
     Packaging.path_join := Packaging.path_join path_system;
     Packaging.isfile := Packaging.isfile path_system;
     Packaging.path_exists := Packaging.path_exists path_system;
     Packaging.run_tab2opf := Packaging.run_tab2opf path_system;
     Packaging.run_kindlegen := Packaging.run_kindlegen path_system |}.

(** * Properties *)

(** ** Strings *)

Lemma eqb_str_eq (a b : str) : eqb_str a b = true <-> a = b.
Proof.
  revert b; induction a as [|x a IH]; intros [|y b]; simpl;
    try (split; [discriminate | discriminate]); try tauto.
  rewrite andb_true_iff, N.eqb_eq, IH.
  split; [intros [-> ->]; reflexivity | intros H; inversion H; auto].
Qed.

Lemma eqb_str_refl (a : str) : eqb_str a a = true.
Proof. apply eqb_str_eq; reflexivity. Qed.

Lemma find_from_spec (sub : str) :
  forall t i j, find_from sub t i = Some j ->
    exists k, j = i + k /\ k <= length t /\ startswith sub (skipn k t) = true.
Proof.
  induction t as [|c t IH]; intros i j; simpl.
  - destruct (startswith sub []) eqn:E; [|discriminate].
    intros H; inversion H; subst; exists 0; simpl; repeat split; auto; lia.
  - destruct (startswith sub (c :: t)) eqn:E.
    + intros H; inversion H; subst; exists 0; simpl; repeat split; auto; lia.
    + intros H; apply IH in H as (k & -> & Hk & Hs).
      exists (S k); simpl; repeat split; auto; lia.
Qed.

Lemma find_from_here (sub t : str) (i : nat) :
  startswith sub t = true -> find_from sub t i = Some i.
Proof. intros H; destruct t; simpl; rewrite H; reflexivity. Qed.

(** An index that [find] returns is found again when the search starts
    there. *)
Lemma find_again (t sub : str) (pos idx : nat) :
  find t sub pos = Some idx -> find t sub idx = Some idx.
Proof.
  unfold find.
  destruct (pos <=? length t) eqn:Hp; [|discriminate].
  apply Nat.leb_le in Hp.
  intros H; apply find_from_spec in H as (k & -> & Hk & Hs).
  rewrite length_skipn in Hk.
  assert (Hle : pos + k <= length t) by lia.
  apply Nat.leb_le in Hle; rewrite Hle.
  rewrite skipn_skipn in Hs.
  replace (pos + k) with (k + pos) by lia.
  apply find_from_here; exact Hs.
Qed.

(** ** The two loops of the extractor *)

Section LoopProps.

Variable _html5 : str -> option str.

Import Gcide2tab.

(** The scan of [extract_def_content] always returns. *)
Lemma def_loop_returns (t : str) (start : nat) :
  forall fuel depth i begin,
    length t <= fuel + i ->
    exists r, def_loop (S fuel) t start depth i begin = Ret r.
Proof.
  induction fuel as [|fuel IH]; intros depth i begin Hle.
  - simpl. assert (H : (i <? length t) = false) by (apply Nat.ltb_ge; lia).
    rewrite H; eauto.
  - change (def_loop (S (S fuel)) t start depth i begin)
      with (if i <? length t then
              if eqb_str (slice t (Some i) (i + 5)) (lit "<def>") then
                def_loop (S fuel) t start (depth + 1) (i + 5)
                         (if (depth =? 0)%Z then Some (i + 5) else begin)
              else if eqb_str (slice t (Some i) (i + 6)) (lit "</def>") then
                if (depth - 1 =? 0)%Z then Ret (Some (slice t begin i), i + 6)
                else def_loop (S fuel) t start (depth - 1) (i + 6) begin
              else def_loop (S fuel) t start depth (i + 1) begin
            else Ret (None, start)).
    destruct (i <? length t); [|eauto].
    destruct (eqb_str _ _); [apply IH; lia|].
    destruct (eqb_str _ _); [|apply IH; lia].
    destruct (depth - 1 =? 0)%Z; [eauto | apply IH; lia].
Qed.

Lemma extract_def_content_returns (t : str) (start : nat) :
  exists r, extract_def_content t start = Ret r.
Proof. apply def_loop_returns; lia. Qed.

(** When no matching [</def>] is found the position returned is the one
    the scan started from. *)
Lemma def_loop_none (t : str) (start : nat) :
  forall fuel depth i begin e,
    def_loop fuel t start depth i begin = Ret (None, e) -> e = start.
Proof.
  induction fuel as [|fuel IH]; intros depth i begin e; simpl; [discriminate|].
  destruct (i <? length t); [|intros H; inversion H; reflexivity].
  destruct (eqb_str _ _); [apply IH|].
  destruct (eqb_str _ _); [|apply IH].
  destruct (depth - 1 =? 0)%Z; [discriminate | apply IH].
Qed.

(** More fuel does not change what a loop returns. *)
Lemma defs_loop_mono (t : str) :
  forall fuel pos defs r,
    defs_loop fuel t pos defs = Ret r ->
    forall fuel', fuel <= fuel' -> defs_loop fuel' t pos defs = Ret r.
Proof.
  induction fuel as [|fuel IH]; intros pos defs r; simpl; [discriminate|].
  intros H [|fuel'] Hle; [lia|]. simpl.
  destruct (find t (lit "<def>") pos); [|exact H].
  destruct (extract_def_content t n) as [|[dc e]]; simpl in *; [discriminate|].
  apply IH with (fuel' := fuel') in H; [exact H | lia].
Qed.

(** The loop of [extract_entry] makes no progress at a [<def>] that is
    never closed: [pos] stays on it, whatever the fuel. *)
Lemma defs_loop_stuck (t : str) (pos idx e : nat) :
  find t (lit "<def>") pos = Some idx ->
  extract_def_content t idx = Ret (None, e) ->
  forall fuel defs, defs_loop fuel t pos defs = OutOfFuel.
Proof.
  intros Hf Hx.
  assert (He : e = idx) by (eapply def_loop_none; exact Hx). subst e.
  pose proof (find_again _ _ _ _ Hf) as Hf'.
  assert (Hidx : forall fuel defs, defs_loop fuel t idx defs = OutOfFuel).
  { induction fuel as [|fuel IH]; intros defs; simpl; [reflexivity|].
    rewrite Hf', Hx; simpl. apply IH. }
  intros [|fuel] defs; simpl; [reflexivity|].
  rewrite Hf, Hx; simpl. apply Hidx.
Qed.

Lemma extract_entry_mono (t : str) (fuel fuel' : nat) r :
  extract_entry _html5 fuel t = Ret r -> fuel <= fuel' ->
  extract_entry _html5 fuel' t = Ret r.
Proof.
  unfold extract_entry. destruct (search_hw t); [|auto].
  destruct (defs_loop fuel t 0 []) as [|defs] eqn:E; simpl; [discriminate|].
  intros H Hle. rewrite (defs_loop_mono _ _ _ _ _ E _ Hle). exact H.
Qed.

(** A block without a headword span gives no entry, and so does a block
    without a definition-open tag. *)
Lemma extract_entry_no_headword (t : str) (fuel : nat) :
  search_hw t = None -> extract_entry _html5 fuel t = Ret None.
Proof. unfold extract_entry; intros ->; reflexivity. Qed.

Lemma extract_entry_no_def (t : str) (fuel : nat) :
  find t (lit "<def>") 0 = None -> extract_entry _html5 (S fuel) t = Ret None.
Proof.
  unfold extract_entry; intros H. destruct (search_hw t); [|reflexivity].
  simpl. rewrite H. reflexivity.
Qed.

(** An entry with a headword whose first [<def>] is never closed: the
    extraction does not return. *)
Lemma extract_entry_unmatched (t g : str) (idx e : nat) :
  search_hw t = Some g ->
  find t (lit "<def>") 0 = Some idx ->
  extract_def_content t idx = Ret (None, e) ->
  forall fuel, extract_entry _html5 fuel t = OutOfFuel.
Proof.
  intros Hh Hf Hx fuel. unfold extract_entry. rewrite Hh.
  rewrite (defs_loop_stuck _ _ _ _ Hf Hx). reflexivity.
Qed.

End LoopProps.

(** ** Fuel and the files *)

Section FileProps.

Variable _html5 : str -> option str.

Import Gcide2tab.

Lemma process_block_mono (fuel fuel' : nat) (d : dict) (block : str) r :
  process_block _html5 fuel d block = Ret r -> fuel <= fuel' ->
  process_block _html5 fuel' d block = Ret r.
Proof.
  unfold process_block. destruct (_ || _); [auto|].
  destruct (extract_entry _html5 fuel _) as [|e] eqn:E; cbn [bind]; [discriminate|].
  intros H Hle. rewrite (extract_entry_mono _ _ _ _ _ E Hle). exact H.
Qed.

Lemma process_blocks_mono (fuel fuel' : nat) (blocks : list str) :
  forall d r, process_blocks _html5 fuel d blocks = Ret r -> fuel <= fuel' ->
    process_blocks _html5 fuel' d blocks = Ret r.
Proof.
  induction blocks as [|b blocks IH]; intros d r; cbn [process_blocks]; [auto|].
  destruct (process_block _html5 fuel d b) as [|d'] eqn:E; cbn [bind]; [discriminate|].
  intros H Hle. rewrite (process_block_mono _ _ _ _ _ E Hle). cbn [bind]. auto.
Qed.

Lemma process_files_mono (fuel fuel' : nat) (listing : list (str * str))
      (files : list str) :
  forall d r, process_files _html5 fuel listing files d = Ret r ->
    fuel <= fuel' -> process_files _html5 fuel' listing files d = Ret r.
Proof.
  induction files as [|f files IH]; intros d r; cbn [process_files]; [auto|].
  destruct (dir_get f listing); [|auto].
  destruct (process_file _html5 fuel s d) as [|d'] eqn:E; cbn [bind]; [discriminate|].
  intros H Hle. unfold process_file in *.
  rewrite (process_blocks_mono _ _ _ _ _ E Hle). cbn [bind]. auto.
Qed.

Lemma main_mono (fuel fuel' : nat) (w : world) r :
  main _html5 fuel w = Ret r -> fuel <= fuel' -> main _html5 fuel' w = Ret r.
Proof.
  unfold main. destruct (xml_dir w) as [listing|]; [|auto].
  destruct (filter _ _) as [|f fs]; [auto|].
  destruct (process_files _html5 fuel _ _ _) as [|e] eqn:E; cbn [bind]; [discriminate|].
  intros H Hle. rewrite (process_files_mono _ _ _ _ _ _ E Hle). exact H.
Qed.

(** A block that passes the filter of [process_file] and whose extraction
    does not return stops the whole file. *)
Lemma process_blocks_stuck (blocks : list str) (block : str) :
  In block blocks ->
  contains (lit "<hw>") block = true ->
  contains (lit "<def>") block = true ->
  (forall fuel, extract_entry _html5 fuel (lit "<p><ent>" ++ block) = OutOfFuel) ->
  forall fuel d, process_blocks _html5 fuel d blocks = OutOfFuel.
Proof.
  intros Hin Hh Hd Hx fuel.
  induction blocks as [|b blocks IH]; intros d; [destruct Hin|].
  cbn [process_blocks]. destruct Hin as [-> | Hin].
  - unfold process_block. rewrite Hh, Hd, Hx. reflexivity.
  - destruct (process_block _html5 fuel d b); cbn [bind]; auto.
Qed.

End FileProps.

(** ** The extractor on the examples *)

Section ExtractorExamples.

Variable _html5 : str -> option str.

Import Gcide2tab.

(** C1.  An entry block with a headword and a [<def>] that is never
    closed is not skipped: [extract_def_content] hands back the position
    of that [<def>], the loop of [extract_entry] searches from there
    again and finds the same tag, and so on.  Whatever the fuel, the
    extraction of the block does not return, and neither does a run of
    [main] on a directory whose letter file holds the block. *)
Theorem unmatched_def_never_returns (fuel : nat) :
  extract_def_content unclosed_entry 25 = Ret (None, 25)
  /\ extract_entry _html5 fuel unclosed_entry = OutOfFuel
  /\ process_file _html5 fuel unclosed_entry [] = OutOfFuel
  /\ main _html5 fuel unclosed_world = OutOfFuel.
Proof.
  assert (Hx : extract_def_content unclosed_entry 25 = Ret (None, 25))
    by (vm_compute; reflexivity).
  assert (He : forall fuel,
             extract_entry _html5 fuel unclosed_entry = OutOfFuel).
  { apply extract_entry_unmatched with (g := lit "a") (idx := 25) (e := 25);
      [vm_compute; reflexivity | vm_compute; reflexivity | exact Hx]. }
  assert (Hf : forall fuel d,
             process_file _html5 fuel unclosed_entry d = OutOfFuel).
  { intros fuel' d. unfold process_file.
    apply process_blocks_stuck
      with (block := lit "a</ent><hw>a</hw><def>an unclosed definition").
    - vm_compute. right; left; reflexivity.
    - vm_compute; reflexivity.
    - vm_compute; reflexivity.
    - exact He. }
  repeat split; auto.
  unfold main, unclosed_world; cbn [xml_dir].
  match goal with
  | |- context [filter ?f ?l] =>
      replace (filter f l) with [lit "gcide_a.xml"] by (vm_compute; reflexivity)
  end.
  replace (sorted [lit "gcide_a.xml"]) with [lit "gcide_a.xml"]
    by (vm_compute; reflexivity).
  cbn [process_files].
  replace (dir_get (lit "gcide_a.xml") [(lit "gcide_a.xml", unclosed_entry)])
    with (Some unclosed_entry) by (vm_compute; reflexivity).
  rewrite Hf. reflexivity.
Qed.

(** C2.  On the nested markup of the example the scan returns the text up
    to the close tag that matches the first open tag (the whole markup,
    38 characters), the entry has exactly one definition span, and its
    text after the tags are stripped and the white space normalised is
    [outer inner text]. *)
Theorem nested_def_is_one_span (fuel : nat) :
  extract_def_content nested_markup 0
  = Ret (Some (lit "outer <def>inner</def> text"), length nested_markup)
  /\ defs_loop (2 + fuel) nested_entry 0 [] = Ret [lit "outer inner text"]
  /\ extract_entry _html5 (2 + fuel) nested_entry
     = Ret (Some (lit "x", lit "outer inner text")).
Proof.
  split; [vm_compute; reflexivity|]. split.
  - apply defs_loop_mono with (fuel := 2); [vm_compute; reflexivity | lia].
  - apply extract_entry_mono with (fuel := 2); [vm_compute; reflexivity | lia].
Qed.

(** C3.  With a letter-a file whose entry [apple] is defined as
    [a fruit] and a letter-b file whose entry [apple] is defined as
    [to polish], in whichever order the directory lists the two files,
    the run ends with status 0, the directory of the output path exists
    afterwards, and the output file holds the single line
    [apple<TAB>a fruit; to polish]: the definition of the letter-a file
    comes first. *)
Theorem apple_end_to_end (fuel : nat) :
  (exists w',
      main _html5 (2 + fuel) apple_world = Ret (0%Z, w')
      /\ out_parent w' = true
      /\ out_file w'
         = Some (lit "apple" ++ [TAB] ++ lit "a fruit; to polish" ++ [LF]))
  /\ (exists w',
         main _html5 (2 + fuel) apple_world_rev = Ret (0%Z, w')
         /\ out_parent w' = true
         /\ out_file w'
            = Some (lit "apple" ++ [TAB] ++ lit "a fruit; to polish" ++ [LF])).
Proof.
  split.
  - exists (write_out (mkdir_out_parent apple_world) apple_output).
    split; [|split; reflexivity].
    apply main_mono with (fuel := 2); [vm_compute; reflexivity | lia].
  - exists (write_out (mkdir_out_parent apple_world_rev) apple_output).
    split; [|split; reflexivity].
    apply main_mono with (fuel := 2); [vm_compute; reflexivity | lia].
Qed.

(** C4.  The two headwords of [clash_text] are different keys of the
    dictionary, so they are not consolidated; the headword is normalised
    only when the line is written, and the output has two lines whose
    headword field is [a b]. *)
Theorem clash_two_lines_one_headword (fuel : nat) :
  process_file _html5 (2 + fuel) clash_text []
  = Ret [ (lit "a" ++ [TAB] ++ lit "b", lit "first");
          (lit "a b", lit "second") ]
  /\ main _html5 (2 + fuel) clash_world
     = Ret (0%Z,
            write_out clash_world
              (render [ (lit "a b", lit "first"); (lit "a b", lit "second") ])).
Proof.
  split.
  - unfold process_file.
    apply process_blocks_mono with (fuel := 2); [vm_compute; reflexivity | lia].
  - apply main_mono with (fuel := 2); [vm_compute; reflexivity | lia].
Qed.

(** C8.  With an input directory that holds no letter file, [main] exits
    with status 1 after it has created the directory of the output
    path. *)
Theorem no_letter_files_creates_directory (fuel : nat) :
  out_parent no_letters_world = false
  /\ main _html5 fuel no_letters_world
     = Ret (1%Z, mkdir_out_parent no_letters_world)
  /\ out_parent (mkdir_out_parent no_letters_world) = true.
Proof. repeat split. Qed.

(** The other fatal condition of the extractor leaves everything as it
    was, and no failure of [main] writes the output file. *)
Lemma main_missing_directory (fuel : nat) (w : world) :
  xml_dir w = None -> main _html5 fuel w = Ret (1%Z, w).
Proof. unfold main; intros ->; reflexivity. Qed.

Lemma main_failure_writes_no_file (fuel : nat) (w w' : world) (status : Z) :
  main _html5 fuel w = Ret (status, w') -> status <> 0%Z ->
  out_file w' = out_file w.
Proof.
  unfold main. destruct (xml_dir w) as [listing|].
  - destruct (filter _ _) as [|f fs].
    + intros H _; inversion H; reflexivity.
    + destruct (process_files _ _ _ _ _) as [|[entries|]]; cbn [bind];
        try discriminate; intros H Hs; inversion H; subst;
        [contradiction | reflexivity].
  - intros H _; inversion H; reflexivity.
Qed.

End ExtractorExamples.

(** ** The definition field of the extractor *)

Lemma lstrip_incl (t : str) (c : char) : In c (lstrip t) -> In c t.
Proof.
  induction t as [|x t IH]; simpl; [auto|].
  destruct (isspace x); [right; auto | auto].
Qed.

Lemma strip_incl (t : str) (c : char) : In c (strip t) -> In c t.
Proof.
  unfold strip, rstrip. intros H.
  apply in_rev, lstrip_incl in H. apply in_rev in H.
  apply lstrip_incl; exact H.
Qed.

Lemma collapse_spaces_single_line (t : str) : single_line (collapse_spaces t).
Proof.
  unfold collapse_spaces, re_sub. generalize 0 as skip.
  induction t as [|x t IH]; intros skip c; simpl; [tauto|].
  destruct skip as [|k]; [|apply IH].
  unfold match_spaces; simpl. destruct (isspace x) eqn:Ex.
  - simpl. intros [<- | H]; [reflexivity | eapply IH; exact H].
  - simpl. intros [<- | H]; [congruence | eapply IH; exact H].
Qed.

Lemma single_line_strip (t : str) : single_line t -> single_line (strip t).
Proof. intros H c Hc; apply H, strip_incl, Hc. Qed.

Lemma single_line_app (a b : str) :
  single_line a -> single_line b -> single_line (a ++ b).
Proof. intros Ha Hb c Hc; apply in_app_or in Hc as [H | H]; auto. Qed.

Lemma single_line_sep : single_line (lit "; ").
Proof.
  intros c [<- | [<- | []]]; [vm_compute; discriminate | reflexivity].
Qed.

Lemma single_line_no_tab (d : str) :
  single_line d -> ~ In TAB d /\ ~ In LF d /\ ~ In CR d.
Proof.
  intros H; repeat split; intros Hin;
    specialize (H _ Hin eq_refl); discriminate H.
Qed.

Section DefinitionField.

Variable _html5 : str -> option str.

Import Gcide2tab.

Lemma extract_entry_single_line (fuel : nat) (t h d : str) :
  extract_entry _html5 fuel t = Ret (Some (h, d)) -> single_line d.
Proof.
  unfold extract_entry. destruct (search_hw t); [|discriminate].
  destruct (defs_loop fuel t 0 []) as [|[|x defs]]; cbn [bind]; try discriminate.
  intros H; inversion H; subst.
  apply single_line_strip, collapse_spaces_single_line.
Qed.

Lemma dict_get_single_line (k v : str) (d : dict) :
  all_single_line d -> dict_get k d = Some v -> single_line v.
Proof.
  induction 1 as [|[k' v'] d Hv Hd IH]; simpl; [discriminate|].
  destruct (eqb_str k k'); [intros H; inversion H; subst; exact Hv | exact IH].
Qed.

Lemma dict_set_single_line (k v : str) (d : dict) :
  all_single_line d -> single_line v -> all_single_line (dict_set k v d).
Proof.
  intros Hd Hv. induction Hd as [|[k' v'] d Hv' Hd IH]; simpl.
  - repeat constructor; exact Hv.
  - destruct (eqb_str k k'); constructor; auto.
Qed.

Lemma process_block_single_line (fuel : nat) (d d' : dict) (block : str) :
  all_single_line d -> process_block _html5 fuel d block = Ret d' ->
  all_single_line d'.
Proof.
  intros Hd. unfold process_block. destruct (_ || _).
  - intros H; inversion H; subst; exact Hd.
  - destruct (extract_entry _ _ _) as [|[[h v]|]] eqn:E; cbn [bind];
      try discriminate.
    + apply extract_entry_single_line in E.
      destruct (dict_get h d) as [old|] eqn:G; intros [= <-].
      * apply dict_set_single_line; [exact Hd|].
        apply (single_line_app old (lit "; " ++ v));
          [eapply dict_get_single_line; eauto|].
        apply (single_line_app (lit "; ") v); [apply single_line_sep | exact E].
      * apply dict_set_single_line; assumption.
    + intros H; inversion H; subst; exact Hd.
Qed.

Lemma process_blocks_single_line (fuel : nat) (blocks : list str) :
  forall d d', all_single_line d ->
    process_blocks _html5 fuel d blocks = Ret d' -> all_single_line d'.
Proof.
  induction blocks as [|b blocks IH]; intros d d' Hd; cbn [process_blocks].
  - intros H; inversion H; subst; exact Hd.
  - destruct (process_block _html5 fuel d b) as [|d1] eqn:E; cbn [bind];
      [discriminate|].
    apply IH. eapply process_block_single_line; eauto.
Qed.

Lemma process_files_single_line (fuel : nat) (listing : list (str * str))
      (files : list str) :
  forall d d', all_single_line d ->
    process_files _html5 fuel listing files d = Ret (Some d') ->
    all_single_line d'.
Proof.
  induction files as [|f files IH]; intros d d' Hd; cbn [process_files].
  - intros H; inversion H; subst; exact Hd.
  - destruct (dir_get f listing) as [text|]; [|discriminate].
    destruct (process_file _html5 fuel text d) as [|d1] eqn:E; cbn [bind];
      [discriminate|].
    apply IH. eapply process_blocks_single_line; eauto.
Qed.

Lemma out_lines_single_line (entries : dict) (h defn : str) :
  all_single_line entries -> In (h, defn) (out_lines entries) ->
  single_line defn.
Proof.
  intros He Hin. unfold out_lines in Hin.
  apply in_map_iff in Hin as (k & Hk & _). inversion Hk; subst.
  destruct (dict_get k entries) eqn:G.
  - eapply dict_get_single_line; eauto.
  - intros c [].
Qed.

(** Every line a successful run of the extractor writes has a
    definition field without tabs and without line boundaries. *)
Lemma main_definitions_single_line (fuel : nat) (w w' : world) :
  main _html5 fuel w = Ret (0%Z, w') ->
  exists entries,
    out_file w' = Some (render (out_lines entries))
    /\ forall h defn, In (h, defn) (out_lines entries) ->
         single_line defn /\ ~ In TAB defn /\ ~ In LF defn /\ ~ In CR defn.
Proof.
  unfold main. destruct (xml_dir w) as [listing|]; [|discriminate].
  destruct (filter _ _) as [|f fs]; [discriminate|].
  destruct (process_files _ _ _ _ _) as [|[entries|]] eqn:E; cbn [bind];
    try discriminate.
  intros H; inversion H; subst. exists entries. split; [reflexivity|].
  intros h defn Hin.
  assert (Hs : single_line defn).
  { eapply out_lines_single_line; [|exact Hin].
    eapply process_files_single_line; [|exact E]. constructor. }
  split; [exact Hs | apply single_line_no_tab; exact Hs].
Qed.

End DefinitionField.

(** ** The order in which the directory lists its files *)

Lemma dir_get_in (name text : str) (listing : list (str * str)) :
  NoDup (map fst listing) ->
  (Gcide2tab.dir_get name listing = Some text <-> In (name, text) listing).
Proof.
  induction listing as [|[n t] l IH]; simpl; intros Hnd.
  - split; [discriminate | tauto].
  - inversion Hnd as [|? ? Hn Hl]; subst.
    destruct (eqb_str name n) eqn:E.
    + apply eqb_str_eq in E; subst n. split.
      * intros [= ->]; left; reflexivity.
      * intros [[= ->] | Hin]; [reflexivity|].
        exfalso; apply Hn. apply (in_map fst) in Hin; exact Hin.
    + rewrite (IH Hl). split; [auto|].
      intros [[= -> ->] | Hin]; [|exact Hin].
      rewrite eqb_str_refl in E; discriminate.
Qed.

(** A file is looked up by its name: the answer does not depend on
    where the directory lists it. *)
Lemma dir_get_perm (l1 l2 : list (str * str)) (name : str) :
  Permutation l1 l2 -> NoDup (map fst l1) ->
  Gcide2tab.dir_get name l1 = Gcide2tab.dir_get name l2.
Proof.
  intros Hp Hnd.
  assert (Hnd2 : NoDup (map fst l2)).
  { eapply Permutation_NoDup; [apply Permutation_map; exact Hp | exact Hnd]. }
  destruct (Gcide2tab.dir_get name l1) as [t|] eqn:E1.
  - apply dir_get_in in E1; [|exact Hnd].
    symmetry; apply dir_get_in; [exact Hnd2|].
    eapply Permutation_in; eauto.
  - destruct (Gcide2tab.dir_get name l2) as [t|] eqn:E2; [|reflexivity].
    apply dir_get_in in E2; [|exact Hnd2].
    apply Permutation_sym in Hp.
    apply (Permutation_in _ Hp) in E2.
    apply dir_get_in in E2; [congruence | exact Hnd].
Qed.

Section Determinism.

Variable _html5 : str -> option str.

Import Gcide2tab.

Lemma process_files_ext (fuel : nat) (l1 l2 : list (str * str)) :
  (forall name, dir_get name l1 = dir_get name l2) ->
  forall files d,
    process_files _html5 fuel l1 files d = process_files _html5 fuel l2 files d.
Proof.
  intros Hext. induction files as [|f files IH]; intros d; cbn [process_files].
  - reflexivity.
  - rewrite Hext. destruct (dir_get f l2); [|reflexivity].
    destruct (process_file _html5 fuel s d); cbn [bind]; auto.
Qed.

Lemma main_ext (fuel : nat) (l1 l2 : list (str * str)) (parent : bool)
      (old : option str) :
  (forall name, dir_get name l1 = dir_get name l2) ->
  observe (main _html5 fuel
             {| xml_dir := Some l1; out_parent := parent; out_file := old |})
  = observe (main _html5 fuel
               {| xml_dir := Some l2; out_parent := parent; out_file := old |}).
Proof.
  intros Hext. unfold main; cbn [xml_dir].
  rewrite (filter_ext _ (fun f => match dir_get f l2 with
                                  | Some _ => true
                                  | None => false
                                  end)) by (intros f; rewrite Hext; reflexivity).
  destruct (filter _ _) as [|f fs]; [reflexivity|].
  rewrite (process_files_ext _ _ _ Hext).
  destruct (process_files _ _ _ _ _) as [|[entries|]]; reflexivity.
Qed.

(** C9.  Two runs of the extractor on the same directory, listed in any
    two orders, agree: with the same fuel they give the same exit status
    and the same output file, or neither returns; and two runs that
    return, whatever fuel each had, leave the same status and the same
    output file. *)
Theorem extractor_deterministic (l1 l2 : list (str * str)) (parent : bool)
        (old : option str) :
  Permutation l1 l2 -> NoDup (map fst l1) ->
  let w1 := {| xml_dir := Some l1; out_parent := parent; out_file := old |} in
  let w2 := {| xml_dir := Some l2; out_parent := parent; out_file := old |} in
  (forall fuel, observe (main _html5 fuel w1) = observe (main _html5 fuel w2))
  /\ (forall fuel1 fuel2 status1 status2 w1' w2',
        main _html5 fuel1 w1 = Ret (status1, w1') ->
        main _html5 fuel2 w2 = Ret (status2, w2') ->
        status1 = status2 /\ out_file w1' = out_file w2'
        /\ out_parent w1' = out_parent w2').
Proof.
  intros Hp Hnd w1 w2.
  assert (Hobs : forall fuel,
             observe (main _html5 fuel w1) = observe (main _html5 fuel w2)).
  { intros fuel. apply main_ext. intros name. apply dir_get_perm; assumption. }
  split; [exact Hobs|].
  intros fuel1 fuel2 status1 status2 w1' w2' H1 H2.
  apply main_mono with (fuel' := Nat.max fuel1 fuel2) in H1; [|lia].
  apply main_mono with (fuel' := Nat.max fuel1 fuel2) in H2; [|lia].
  specialize (Hobs (Nat.max fuel1 fuel2)). rewrite H1, H2 in Hobs.
  simpl in Hobs. inversion Hobs; auto.
Qed.

End Determinism.

(** ** The headword *)

Section Headword.

Variable _html5 : str -> option str.

Import Gcide2tab.

Lemma extract_entry_headword (fuel : nat) (t h d : str) :
  extract_entry _html5 fuel t = Ret (Some (h, d)) ->
  exists span, search_hw t = Some span
               /\ h = decode_entities _html5 (strip span).
Proof.
  unfold extract_entry. destruct (search_hw t) as [span|]; [|discriminate].
  destruct (defs_loop fuel t 0 []) as [|[|x defs]]; cbn [bind]; try discriminate.
  intros [= <- _]. exists span; split; reflexivity.
Qed.

(** The definition goes through the same [decode_entities]. *)
Lemma extract_entry_definition (fuel : nat) (t h d : str) :
  extract_entry _html5 fuel t = Ret (Some (h, d)) ->
  exists defs,
    defs_loop fuel t 0 [] = Ret defs
    /\ d = strip (collapse_spaces
                    (replace [CR] [SP]
                       (replace [LF] [SP]
                          (replace [TAB] [SP]
                             (decode_entities _html5 (join (lit "; ") defs)))))).
Proof.
  unfold extract_entry. destruct (search_hw t) as [span|]; [|discriminate].
  destruct (defs_loop fuel t 0 []) as [|[|x defs]]; cbn [bind]; try discriminate.
  intros [= _ <-]. eexists; split; reflexivity.
Qed.

Lemma keys_dict_set (k v k0 : str) (d : dict) :
  In k0 (keys (dict_set k v d)) -> k0 = k \/ In k0 (keys d).
Proof.
  unfold keys. induction d as [|[k' v'] d IH]; simpl.
  - intros [<- | []]; left; reflexivity.
  - destruct (eqb_str k k'); simpl.
    + intros [<- | H]; [left; reflexivity | right; right; exact H].
    + intros [<- | H]; [right; left; reflexivity|].
      destruct (IH H); [left | right; right]; assumption.
Qed.

Lemma process_block_keys (fuel : nat) (d d' : dict) (block k : str) :
  process_block _html5 fuel d block = Ret d' -> In k (keys d') ->
  In k (keys d)
  \/ exists span, search_hw (lit "<p><ent>" ++ block) = Some span
                  /\ k = decode_entities _html5 (strip span).
Proof.
  unfold process_block. destruct (_ || _); [intros [= <-]; auto|].
  destruct (extract_entry _ _ _) as [|[[h v]|]] eqn:E; cbn [bind];
    try discriminate; [|intros [= <-]; auto].
  apply extract_entry_headword in E.
  destruct (dict_get h d); intros [= <-] Hin;
    (apply keys_dict_set in Hin as [-> | Hin]; [right; exact E | left; exact Hin]).
Qed.

(** Every headword of the lexicon that [process_file] builds is either
    a headword that was there before or the text of the headword span of
    one of the blocks of the file, trimmed and then decoded. *)
Lemma process_file_keys (fuel : nat) (text : str) (d0 d : dict) (k : str) :
  process_file _html5 fuel text d0 = Ret d -> In k (keys d) ->
  In k (keys d0)
  \/ exists block span,
       In block (re_split match_entry_start text)
       /\ search_hw (lit "<p><ent>" ++ block) = Some span
       /\ k = decode_entities _html5 (strip span).
Proof.
  unfold process_file. generalize (re_split match_entry_start text) as blocks.
  intros blocks; revert d0.
  induction blocks as [|b blocks IH]; intros d0; cbn [process_blocks].
  - intros [= <-]; auto.
  - destruct (process_block _html5 fuel d0 b) as [|d1] eqn:E; cbn [bind];
      [discriminate|].
    intros H Hin. destruct (IH _ H Hin) as [Hk | (block & span & Hb & Hs & Hd)].
    + destruct (process_block_keys _ _ _ _ _ E Hk) as [Hk0 | (span & Hs & Hd)];
        [left; exact Hk0|].
      right; exists b, span; repeat split; [left; reflexivity | exact Hs | exact Hd].
    + right; exists block, span; repeat split; [right; exact Hb | exact Hs | exact Hd].
Qed.

(** The line written for a key of the lexicon. *)
Lemma out_lines_headword (entries : dict) (h defn : str) :
  In (h, defn) (out_lines entries) ->
  exists k, In k (keys entries)
            /\ h = strip (replace [LF] [SP] (replace [TAB] [SP] k)).
Proof.
  unfold out_lines. intros Hin.
  apply in_map_iff in Hin as (k & [= <- _] & Hk). exists k. split; [|reflexivity].
  revert Hk. generalize (keys entries) as l. intros l.
  unfold sorted. induction l as [|x l IH]; simpl; [tauto|].
  assert (Hins : forall y m, In k (insort y m) -> k = y \/ In k m).
  { clear. intros y m; induction m as [|z m IHm]; simpl.
    - intros [<- | []]; auto.
    - destruct (leb_str y z); simpl.
      + intros [<- | H]; auto.
      + intros [<- | H]; auto. destruct (IHm H); auto. }
  intros H. destruct (Hins _ _ H) as [-> | H']; auto.
Qed.

Lemma process_files_keys (fuel : nat) (listing : list (str * str))
      (files : list str) :
  forall d0 d k,
    process_files _html5 fuel listing files d0 = Ret (Some d) ->
    In k (keys d) ->
    In k (keys d0)
    \/ exists f text block span,
         dir_get f listing = Some text
         /\ In block (re_split match_entry_start text)
         /\ search_hw (lit "<p><ent>" ++ block) = Some span
         /\ k = decode_entities _html5 (strip span).
Proof.
  induction files as [|f files IH]; intros d0 d k; cbn [process_files].
  - intros [= <-]; auto.
  - destruct (dir_get f listing) as [text|] eqn:Ef; [|discriminate].
    destruct (process_file _html5 fuel text d0) as [|d1] eqn:E; cbn [bind];
      [discriminate|].
    intros H Hin.
    destruct (IH _ _ _ H Hin) as [Hk | Hk]; [|right; exact Hk].
    destruct (process_file_keys _ _ _ _ _ E Hk)
      as [Hk0 | (block & span & Hb & Hs & Hd)]; [left; exact Hk0|].
    right. exists f, text, block, span. auto.
Qed.

(** C10.  Every headword that a successful run of the extractor writes
    comes from the headword span of an entry block of one of the files
    of the input directory: it is the text of the span, trimmed, then
    passed through [unescape] (HTML unescaping) and then through the
    custom replacement table, which is what [decode_entities] does to
    the definitions as well, and at last normalised for the line
    format.  It is the decoded text and not the raw text of the span:
    whatever the table of HTML5 names, the headword [caf&#233;] is
    written as [caf] followed by U+00E9. *)
Theorem headword_is_decoded :
  (forall (fuel : nat) (w w' : world),
      main _html5 fuel w = Ret (0%Z, w') ->
      exists listing entries,
        xml_dir w = Some listing
        /\ out_file w' = Some (render (out_lines entries))
        /\ forall h defn, In (h, defn) (out_lines entries) ->
             exists f text block span,
               dir_get f listing = Some text
               /\ In block (re_split match_entry_start text)
               /\ search_hw (lit "<p><ent>" ++ block) = Some span
               /\ decode_entities _html5 (strip span)
                  = fold_left (fun text '(ent, ch) => replace ent ch text)
                              replacements (unescape _html5 (strip span))
               /\ h = strip (replace [LF] [SP]
                               (replace [TAB] [SP]
                                  (decode_entities _html5 (strip span)))))
  /\ (forall fuel : nat,
         exists w',
           main _html5 (2 + fuel) accent_world = Ret (0%Z, w')
           /\ out_file w'
              = Some (lit "caf" ++ [233%N] ++ [TAB] ++ lit "a coffee house"
                      ++ [LF]))
  /\ unescape _html5 (lit "caf&#233;") = lit "caf" ++ [233%N]
  /\ decode_entities _html5 (lit "caf&#233;") <> lit "caf&#233;".
Proof.
  split; [|split; [|split]].
  - intros fuel w w'.
    unfold main. destruct (xml_dir w) as [listing|]; [|discriminate].
    destruct (filter _ _) as [|f0 fs]; [discriminate|].
    destruct (process_files _ _ _ _ _) as [|[entries|]] eqn:E; cbn [bind];
      try discriminate.
    intros [= <-]. exists listing, entries.
    split; [reflexivity|]. split; [reflexivity|].
    intros h defn Hin.
    apply out_lines_headword in Hin as (k & Hk & ->).
    destruct (process_files_keys _ _ _ _ _ _ E Hk)
      as [[] | (f & text & block & span & Hf & Hb & Hs & ->)].
    exists f, text, block, span. repeat split; auto.
  - intros fuel.
    exists (write_out accent_world
              (lit "caf" ++ [233%N] ++ [TAB] ++ lit "a coffee house" ++ [LF])).
    split; [|reflexivity].
    apply main_mono with (fuel := 2); [vm_compute; reflexivity | lia].
  - vm_compute. reflexivity.
  - vm_compute. discriminate.
Qed.

(** An entity of the custom table in a headword: [html.unescape] leaves
    [&ebreve_;] alone when no HTML5 name begins with [eb], and the
    replacement table then turns it into U+0115. *)
Lemma ebreve_headword_decoded :
  (forall s, startswith (lit "eb") s = true -> _html5 s = None) ->
  decode_entities _html5 (lit "B&ebreve_;de") = [66; 0x115; 100; 101]%N.
Proof.
  intros H. unfold decode_entities.
  assert (Hu : unescape _html5 (lit "B&ebreve_;de") = lit "B&ebreve_;de").
  { vm_compute. repeat (rewrite H by reflexivity). reflexivity. }
  rewrite Hu. vm_compute. reflexivity.
Qed.

End Headword.

(** ** The merger *)

Section MergerProps.

Import Merge.

Lemma files_of_dirs_set (k : str) (fs : list (str * str))
      (dirs : list (str * list (str * str))) :
  files_of k (dirs_set k fs dirs) = Some fs.
Proof.
  induction dirs as [|[k' old] dirs IH]; simpl.
  - rewrite eqb_str_refl; reflexivity.
  - destruct (eqb_str k k') eqn:E; simpl; rewrite E; auto.
Qed.

Lemma file_get_file_set (n text : str) (fs : list (str * str)) :
  file_get n (file_set n text fs) = Some text.
Proof.
  induction fs as [|[n' old] fs IH]; simpl.
  - rewrite eqb_str_refl; reflexivity.
  - destruct (eqb_str n n') eqn:E; simpl; rewrite E; auto.
Qed.

Lemma read_file_write_out (book_folder name content : str) (w : world) :
  read_file book_folder name (write_out book_folder name content w)
  = Some content.
Proof.
  unfold read_file, write_out; simpl.
  rewrite files_of_dirs_set. apply file_get_file_set.
Qed.

(** When the identifier is known and the two input files exist, [main]
    writes the union file and goes on to the packaging: the file holds
    the lines of [union_lines], each followed by a line feed. *)
Lemma main_writes_union (argv : list str) (w : world)
      (book_folder char_file_name output_basename gcide_text char_text : str) :
  nth_error argv 1 = Some book_folder ->
  config book_folder BOOK_CONFIG = Some (char_file_name, output_basename) ->
  gcide_txt w = Some gcide_text ->
  read_file book_folder char_file_name w = Some char_text ->
  exists w',
    main argv w = Packaging w'
    /\ read_file book_folder (output_basename ++ lit ".txt") w'
       = Some (render (union_lines (read_lines gcide_text)
                                   (nonblank (read_lines char_text)))).
Proof.
  intros Ha Hc Hg Hr. unfold main.
  destruct argv as [|a0 [|a1 argv]]; try discriminate.
  simpl in Ha; injection Ha as ->.
  rewrite Hc, Hg, Hr.
  eexists; split; [reflexivity | apply read_file_write_out].
Qed.

(** Every exit of [main] before the packaging has status 1 and leaves the
    files as they were. *)
Lemma main_exit_unchanged (argv : list str) (w w' : world) (status : Z) :
  main argv w = Exit status w' -> status = 1%Z /\ w' = w.
Proof.
  unfold main.
  destruct argv as [|a0 [|a1 argv]]; try (intros [= <- <-]; auto).
  destruct (config a1 BOOK_CONFIG) as [[c o]|]; [|intros [= <- <-]; auto].
  destruct (gcide_txt w); [|intros [= <- <-]; auto].
  destruct (read_file a1 c w); [discriminate | intros [= <- <-]; auto].
Qed.

Lemma main_fatal (argv : list str) (w : world) :
  (forall book_folder char_file_name output_basename,
      nth_error argv 1 = Some book_folder ->
      config book_folder BOOK_CONFIG = Some (char_file_name, output_basename) ->
      gcide_txt w = None \/ read_file book_folder char_file_name w = None) ->
  main argv w = Exit 1 w.
Proof.
  intros H. unfold main.
  destruct argv as [|a0 [|a1 argv]]; try reflexivity.
  destruct (config a1 BOOK_CONFIG) as [[c o]|] eqn:Ec; [|reflexivity].
  destruct (H a1 c o eq_refl Ec) as [-> | Hr]; [reflexivity|].
  destruct (gcide_txt w); [rewrite Hr|]; reflexivity.
Qed.

(** *** Lines *)

Lemma splitlines_scan_no_break (t : str) :
  forall after_cr cur,
    (forall c, In c cur -> islinebreak c = false) ->
    forall ln, In ln (splitlines_scan after_cr cur t) ->
    forall c, In c ln -> islinebreak c = false.
Proof.
  induction t as [|x t IH]; intros after_cr cur Hcur ln; simpl.
  - destruct cur as [|y cur]; [intros [] |].
    intros [<- | []] c Hc. apply Hcur, in_rev; exact Hc.
  - destruct (after_cr && (x =? LF)%N); [apply IH; exact Hcur|].
    destruct (islinebreak x) eqn:Ex.
    + intros [<- | Hin] c Hc.
      * apply Hcur, in_rev; exact Hc.
      * eapply IH; [|exact Hin | exact Hc]. intros ? [].
    + apply IH. intros c [<- | Hc]; [exact Ex | apply Hcur; exact Hc].
Qed.

Lemma read_lines_no_break (text ln : str) (c : char) :
  In ln (read_lines text) -> In c ln -> islinebreak c = false.
Proof.
  unfold read_lines, splitlines. intros Hin Hc.
  eapply splitlines_scan_no_break; [|exact Hin | exact Hc]. intros ? [].
Qed.

Lemma split_tab_incl (ln : str) (c : char) :
  In c (fst (split_tab ln)) \/ In c (snd (split_tab ln)) -> In c ln.
Proof.
  induction ln as [|x ln IH]; simpl; [tauto|].
  destruct (x =? TAB)%N; simpl; [intros [[] | H]; auto|].
  destruct (split_tab ln) as [h d]; simpl in *.
  intros [[<- | H] | H]; auto.
Qed.

Lemma split_tab_app (h d : str) :
  ~ In TAB h -> split_tab (h ++ [TAB] ++ d) = (h, d).
Proof.
  induction h as [|x h IH]; simpl; intros Hn; [reflexivity|].
  destruct (x =? TAB)%N eqn:E.
  - apply N.eqb_eq in E; subst x. exfalso; apply Hn; left; reflexivity.
  - simpl in IH. rewrite IH; [reflexivity | intros Hin; apply Hn; right; exact Hin].
Qed.

Lemma existsb_tab (ln : str) : existsb (N.eqb TAB) ln = true <-> In TAB ln.
Proof.
  rewrite existsb_exists. split.
  - intros (x & Hin & E); apply N.eqb_eq in E; subst; exact Hin.
  - intros Hin; exists TAB; split; [exact Hin | apply N.eqb_refl].
Qed.

(** The line written for a supplementary line [headword<TAB>definition]
    and for one without a tab. *)
Lemma char_line_tagged (h d : str) :
  ~ In TAB h -> char_line (h ++ [TAB] ++ d) = h ++ [TAB] ++ CHAR_TAG ++ d.
Proof.
  intros Hn. unfold char_line.
  replace (existsb (N.eqb TAB) (h ++ [TAB] ++ d)) with true.
  - rewrite (split_tab_app h d Hn). reflexivity.
  - symmetry; apply existsb_tab, in_or_app; right; left; reflexivity.
Qed.


Lemma char_line_no_break (ln : str) (c : char) :
  (forall x, In x ln -> islinebreak x = false) ->
  In c (char_line ln) -> islinebreak c = false.
Proof.
  intros Hln. unfold char_line.
  destruct (existsb (N.eqb TAB) ln); [|apply Hln].
  destruct (split_tab ln) as [h d] eqn:E. intros Hin.
  apply in_app_or in Hin as [Hin | Hin].
  - apply Hln, split_tab_incl. rewrite E; left; exact Hin.
  - apply in_app_or in Hin as [[<- | []] | Hin]; [reflexivity|].
    apply in_app_or in Hin as [Hin | Hin].
    + revert c Hin. apply Forall_forall. vm_compute.
      repeat constructor.
    + apply Hln, split_tab_incl. rewrite E; right; exact Hin.
Qed.

Lemma nonblank_In (ln : str) (lines : list str) :
  In ln (nonblank lines) <-> In ln lines /\ strip ln <> [].
Proof.
  unfold nonblank. rewrite filter_In.
  destruct (strip ln); split; intros [H1 H2]; split; auto; discriminate.
Qed.

(** No line of the union file holds a line boundary. *)
Lemma union_lines_no_break (gcide_text char_text ln : str) (c : char) :
  In ln (union_lines (read_lines gcide_text) (nonblank (read_lines char_text))) ->
  In c ln -> islinebreak c = false.
Proof.
  unfold union_lines. intros Hin Hc.
  apply in_app_or in Hin as [Hin | Hin].
  - eapply read_lines_no_break; eauto.
  - apply in_map_iff in Hin as (ln0 & <- & Hin).
    apply nonblank_In in Hin as [Hin _].
    eapply char_line_no_break; [|exact Hc].
    intros x Hx. eapply read_lines_no_break; eauto.
Qed.

End MergerProps.

(** ** The lines of the union file *)

Section UnionFile.

Import Merge.


(** The merge example of the specification. *)
Lemma dog_example :
  main merge_argv (merge_world dog_base dog_sup)
  = Packaging
      (write_out book union_name
         (lit "dog" ++ [TAB] ++ lit "a canine" ++ [LF]
          ++ lit "dog" ++ [TAB] ++ lit "[Character] loyal companion of the hero"
          ++ [LF])
         (merge_world dog_base dog_sup)).
Proof. vm_compute. reflexivity. Qed.




(** C5 as it was stated fails for the merger: the definition of the
    supplementary line of [tabbed_sup] holds a tab, and the line is
    written with that tab after the tag. *)
Lemma merged_definition_keeps_tab :
  let line := lit "dog" ++ [TAB] ++ CHAR_TAG ++ lit "loyal" ++ [TAB]
              ++ lit "companion" in
  main merge_argv (merge_world dog_base tabbed_sup)
  = Packaging
      (write_out book union_name
         (render [ lit "dog" ++ [TAB] ++ lit "a canine"; line ])
         (merge_world dog_base tabbed_sup))
  /\ snd (split_tab line) = CHAR_TAG ++ lit "loyal" ++ [TAB] ++ lit "companion"
  /\ In TAB (snd (split_tab line)).
Proof.
  split; [vm_compute; reflexivity|].
  split; [vm_compute; reflexivity|].
  vm_compute. do 17 right. left. reflexivity.
Qed.

End UnionFile.

(** C5, amended.  A line written by a successful run of the extractor
    has a definition field without tab, line feed or carriage return:
    its only white space is the plain space.  The merger normalises
    nothing: no line it writes holds a line feed or another line
    boundary, so no definition field does, but a tab that comes after
    the first tab of an input line is written as it is. *)
Theorem definition_field_is_one_line :
  (forall (_html5 : str -> option str) (fuel : nat) (w w' : Gcide2tab.world),
      Gcide2tab.main _html5 fuel w = Ret (0%Z, w') ->
      exists entries,
        Gcide2tab.out_file w'
        = Some (Gcide2tab.render (Gcide2tab.out_lines entries))
        /\ forall h defn, In (h, defn) (Gcide2tab.out_lines entries) ->
             single_line defn
             /\ ~ In TAB defn /\ ~ In LF defn /\ ~ In CR defn)
  /\ (forall (argv : list str) (w : Merge.world)
             (book_folder char_file_name output_basename : str)
             (gcide_text char_text : str),
         nth_error argv 1 = Some book_folder ->
         Merge.config book_folder Merge.BOOK_CONFIG
         = Some (char_file_name, output_basename) ->
         Merge.gcide_txt w = Some gcide_text ->
         Merge.read_file book_folder char_file_name w = Some char_text ->
         exists w' lines,
           Merge.main argv w = Merge.Packaging w'
           /\ Merge.read_file book_folder (output_basename ++ lit ".txt") w'
              = Some (Merge.render lines)
           /\ forall ln c, In ln lines -> In c ln ->
                Merge.islinebreak c = false /\ c <> LF).
Proof.
  split.
  - intros _html5 fuel w w' H.
    exact (main_definitions_single_line _html5 fuel w w' H).
  - intros argv w bf cf ob gt ct Ha Hc Hg Hr.
    destruct (main_writes_union _ _ _ _ _ _ _ Ha Hc Hg Hr) as (w' & Hm & Hf).
    exists w', (Merge.union_lines (Merge.read_lines gt)
                                  (Merge.nonblank (Merge.read_lines ct))).
    repeat split; try assumption.
    + eapply union_lines_no_break; eauto.
    + intros ->.
      assert (E : Merge.islinebreak LF = false)
        by (eapply union_lines_no_break; eauto).
      discriminate E.
Qed.

(** ** What does hold of the loops and of the output lines *)

Section WellFormed.

Variable _html5 : str -> option str.

Import Gcide2tab.

Lemma find_bounds (t sub : str) (pos idx : nat) :
  find t sub pos = Some idx -> pos <= idx <= length t.
Proof.
  unfold find. destruct (pos <=? length t) eqn:Hp; [|discriminate].
  apply Nat.leb_le in Hp. intros H.
  apply find_from_spec in H as (k & -> & Hk & _).
  rewrite length_skipn in Hk. lia.
Qed.

(** A definition span that is found ends after the place where the scan
    began. *)
Lemma def_loop_some (t : str) (start : nat) :
  forall fuel depth i begin d e,
    def_loop fuel t start depth i begin = Ret (Some d, e) -> i < e.
Proof.
  induction fuel as [|fuel IH]; intros depth i begin d e; simpl; [discriminate|].
  destruct (i <? length t); [|discriminate].
  destruct (eqb_str _ _).
  - intros H; apply IH in H; lia.
  - destruct (eqb_str _ _).
    + destruct (depth - 1 =? 0)%Z.
      * intros [= _ <-]; lia.
      * intros H; apply IH in H; lia.
    + intros H; apply IH in H; lia.
Qed.

(** When every [<def>] of the entry has its [</def>], the loop of
    [extract_entry] returns: [S (S (length t))] turns are enough. *)
Lemma defs_loop_returns (t : str) :
  (forall idx, find t (lit "<def>") idx = Some idx ->
     exists d e, extract_def_content t idx = Ret (Some d, e)) ->
  forall fuel pos defs,
    S (length t) - pos < fuel ->
    exists r, defs_loop fuel t pos defs = Ret r.
Proof.
  intros Hclosed.
  induction fuel as [|fuel IH]; intros pos defs Hlt; [lia|]. simpl.
  destruct (find t (lit "<def>") pos) as [idx|] eqn:Hf; [|eauto].
  pose proof (find_bounds _ _ _ _ Hf) as Hb.
  destruct (Hclosed idx (find_again _ _ _ _ Hf)) as (d & e & Hx).
  rewrite Hx; cbn [bind].
  apply def_loop_some in Hx.
  apply IH. lia.
Qed.

Lemma extract_entry_returns (t : str) :
  (forall idx, find t (lit "<def>") idx = Some idx ->
     exists d e, extract_def_content t idx = Ret (Some d, e)) ->
  exists r, extract_entry _html5 (S (S (length t))) t = Ret r.
Proof.
  intros Hclosed. unfold extract_entry.
  destruct (search_hw t); [|eauto].
  destruct (defs_loop_returns t Hclosed (S (S (length t))) 0 []) as (defs & ->);
    [lia|].
  cbn [bind]. destruct defs; eauto.
Qed.

(** An assignment to a key that is present keeps the keys; one to a new
    key puts it last. *)
Lemma keys_dict_set_eq (k v : str) (d : dict) :
  keys (dict_set k v d) = if existsb (eqb_str k) (keys d) then keys d
                          else keys d ++ [k].
Proof.
  unfold keys. induction d as [|[k' v'] d IH]; simpl; [reflexivity|].
  destruct (eqb_str k k') eqn:E; simpl.
  - apply eqb_str_eq in E; subst; reflexivity.
  - rewrite IH. destruct (existsb _ _); reflexivity.
Qed.

Lemma dict_set_nodup (k v : str) (d : dict) :
  NoDup (keys d) -> NoDup (keys (dict_set k v d)).
Proof.
  intros Hd. rewrite keys_dict_set_eq.
  destruct (existsb (eqb_str k) (keys d)) eqn:E; [exact Hd|].
  apply NoDup_app; [exact Hd | repeat constructor; intros [] |].
  intros x Hx [Hk | []]; subst x.
  assert (Ht : existsb (eqb_str k) (keys d) = true).
  { apply existsb_exists. exists k; split; [exact Hx | apply eqb_str_refl]. }
  congruence.
Qed.

Lemma process_block_nodup (fuel : nat) (d d' : dict) (block : str) :
  NoDup (keys d) -> process_block _html5 fuel d block = Ret d' ->
  NoDup (keys d').
Proof.
  intros Hd. unfold process_block. destruct (_ || _); [intros [= <-]; auto|].
  destruct (extract_entry _ _ _) as [|[[h v]|]]; cbn [bind]; try discriminate;
    [|intros [= <-]; auto].
  destruct (dict_get h d); intros [= <-]; apply dict_set_nodup; exact Hd.
Qed.

(** The headwords of the lexicon are pairwise distinct. *)
Lemma process_file_nodup (fuel : nat) (text : str) (d d' : dict) :
  NoDup (keys d) -> process_file _html5 fuel text d = Ret d' ->
  NoDup (keys d').
Proof.
  unfold process_file. generalize (re_split match_entry_start text) as blocks.
  intros blocks; revert d.
  induction blocks as [|b blocks IH]; intros d Hd; cbn [process_blocks].
  - intros [= <-]; exact Hd.
  - destruct (process_block _html5 fuel d b) as [|d1] eqn:E; cbn [bind];
      [discriminate|].
    apply IH. eapply process_block_nodup; eauto.
Qed.

End WellFormed.

(** [sorted] permutes its argument and puts it in order. *)
Lemma ltb_str_asym (a b : str) :
  Gcide2tab.ltb_str a b = true -> Gcide2tab.ltb_str b a = false.
Proof.
  revert b; induction a as [|x a IH]; intros [|y b]; simpl; auto; try discriminate.
  intros H. apply orb_true_iff in H as [H | H].
  - apply N.ltb_lt in H.
    assert (E1 : (y <? x)%N = false) by (apply N.ltb_ge; lia).
    assert (E2 : (y =? x)%N = false) by (apply N.eqb_neq; lia).
    rewrite E1, E2; reflexivity.
  - apply andb_true_iff in H as [H1 H2]. apply N.eqb_eq in H1; subst y.
    rewrite N.ltb_irrefl, N.eqb_refl. simpl. apply IH; exact H2.
Qed.

Lemma insort_perm (x : str) (l : list str) :
  Permutation (Gcide2tab.insort x l) (x :: l).
Proof.
  induction l as [|y l IH]; simpl; [reflexivity|].
  destruct (Gcide2tab.leb_str x y); [reflexivity|].
  rewrite IH. apply perm_swap.
Qed.

Lemma sorted_perm (l : list str) : Permutation (Gcide2tab.sorted l) l.
Proof.
  induction l as [|x l IH]; simpl; [reflexivity|].
  rewrite insort_perm. constructor; exact IH.
Qed.

Lemma insort_sorted (x : str) (l : list str) :
  Sorted (fun a b => Gcide2tab.leb_str a b = true) l ->
  Sorted (fun a b => Gcide2tab.leb_str a b = true) (Gcide2tab.insort x l).
Proof.
  induction 1 as [|y l Hl IH Hy]; simpl; [repeat constructor|].
  destruct (Gcide2tab.leb_str x y) eqn:E.
  - constructor; [constructor; assumption | constructor; exact E].
  - constructor; [exact IH|].
    assert (Hyx : Gcide2tab.leb_str y x = true).
    { unfold Gcide2tab.leb_str in *. apply negb_false_iff in E.
      rewrite (ltb_str_asym _ _ E). reflexivity. }
    destruct l as [|z l]; simpl; [constructor; exact Hyx|].
    destruct (Gcide2tab.leb_str x z); constructor; [exact Hyx|].
    inversion Hy; assumption.
Qed.

Lemma sorted_sorted (l : list str) :
  Sorted (fun a b => Gcide2tab.leb_str a b = true) (Gcide2tab.sorted l).
Proof.
  induction l as [|x l IH]; simpl; [constructor | apply insort_sorted; exact IH].
Qed.

(** The output has one line for each key of the lexicon, in the order of
    the keys. *)
Lemma out_lines_one_per_key (entries : Gcide2tab.dict) :
  length (Gcide2tab.out_lines entries) = length entries
  /\ Permutation (Gcide2tab.sorted (Gcide2tab.keys entries))
                 (Gcide2tab.keys entries)
  /\ Sorted (fun a b => Gcide2tab.leb_str a b = true)
            (Gcide2tab.sorted (Gcide2tab.keys entries)).
Proof.
  split; [|split; [apply sorted_perm | apply sorted_sorted]].
  unfold Gcide2tab.out_lines. rewrite length_map.
  rewrite (Permutation_length (sorted_perm _)).
  unfold Gcide2tab.keys. apply length_map.
Qed.

(** ** The theorems at the examples *)

(** The definition fields of the end-to-end example and of the merge
    example. *)
Lemma definition_field_is_one_line_witness :
  (exists entries,
      Some apple_output = Some (Gcide2tab.render (Gcide2tab.out_lines entries))
      /\ forall h defn, In (h, defn) (Gcide2tab.out_lines entries) ->
           single_line defn
           /\ ~ In TAB defn /\ ~ In LF defn /\ ~ In CR defn)
  /\ (exists w' lines,
         Merge.main merge_argv (merge_world dog_base dog_sup)
         = Merge.Packaging w'
         /\ Merge.read_file book union_name w' = Some (Merge.render lines)
         /\ forall ln c, In ln lines -> In c ln ->
              Merge.islinebreak c = false /\ c <> LF).
Proof.
  split.
  - apply (proj1 definition_field_is_one_line html5_excerpt 2 apple_world
                 (Gcide2tab.write_out (Gcide2tab.mkdir_out_parent apple_world)
                                      apple_output)).
    vm_compute. reflexivity.
  - apply (proj2 definition_field_is_one_line merge_argv
                 (merge_world dog_base dog_sup) book
                 (lit "speaker-characters.txt")
                 (lit "speaker-characters-and-gcide") dog_base dog_sup);
      vm_compute; reflexivity.
Defined.



(** The two listings of the end-to-end example. *)
Lemma extractor_deterministic_witness :
  Permutation [(lit "gcide_a.xml", apple_a); (lit "gcide_b.xml", apple_b)]
              [(lit "gcide_b.xml", apple_b); (lit "gcide_a.xml", apple_a)]
  /\ NoDup (map fst [(lit "gcide_a.xml", apple_a); (lit "gcide_b.xml", apple_b)])
  /\ forall fuel,
       observe (Gcide2tab.main html5_excerpt fuel apple_world)
       = observe (Gcide2tab.main html5_excerpt fuel apple_world_rev).
Proof.
  assert (Hp : Permutation
                 [(lit "gcide_a.xml", apple_a); (lit "gcide_b.xml", apple_b)]
                 [(lit "gcide_b.xml", apple_b); (lit "gcide_a.xml", apple_a)])
    by apply perm_swap.
  assert (Hn : NoDup (map fst [(lit "gcide_a.xml", apple_a);
                               (lit "gcide_b.xml", apple_b)])).
  { vm_compute. constructor.
    - intros [H | []]; discriminate H.
    - constructor; [intros [] | constructor]. }
  split; [exact Hp|]. split; [exact Hn|].
  exact (proj1 (extractor_deterministic html5_excerpt _ _ false None Hp Hn)).
Defined.

(** The headword [R&amp;D caf&#233; B&ebreve_;de], with a named
    reference of HTML5, a numeric reference and an entity of the custom
    table, is written as [R&D caf], U+00E9, [ B], U+0115, [de]. *)
Lemma headword_is_decoded_witness :
  Gcide2tab.main html5_excerpt 2 mixed_world
  = Ret (0%Z,
         Gcide2tab.write_out mixed_world
           (mixed_headword ++ [TAB] ++ lit "three kinds" ++ [LF]))
  /\ exists listing entries,
       Gcide2tab.xml_dir mixed_world = Some listing
       /\ Some (mixed_headword ++ [TAB] ++ lit "three kinds" ++ [LF])
          = Some (Gcide2tab.render (Gcide2tab.out_lines entries))
       /\ forall h defn, In (h, defn) (Gcide2tab.out_lines entries) ->
            exists f text block span,
              Gcide2tab.dir_get f listing = Some text
              /\ In block (re_split match_entry_start text)
              /\ search_hw (lit "<p><ent>" ++ block) = Some span
              /\ Gcide2tab.decode_entities html5_excerpt (strip span)
                 = fold_left (fun text '(ent, ch) => replace ent ch text)
                             Gcide2tab.replacements
                             (Gcide2tab.unescape html5_excerpt (strip span))
              /\ h = strip (replace [LF] [SP]
                              (replace [TAB] [SP]
                                 (Gcide2tab.decode_entities html5_excerpt
                                    (strip span)))).
Proof.
  assert (H : Gcide2tab.main html5_excerpt 2 mixed_world
              = Ret (0%Z,
                     Gcide2tab.write_out mixed_world
                       (mixed_headword ++ [TAB] ++ lit "three kinds"
                        ++ [LF])))
    by (vm_compute; reflexivity).
  split; [exact H|].
  exact (proj1 (headword_is_decoded html5_excerpt) 2 mixed_world _ H).
Defined.

(** * Further properties of the two scripts *)

(** ** Scanning for matches *)

Lemma sub_scan_skip (m : str -> option (nat * str)) (t : str) :
  forall skip, sub_scan m skip t = sub_scan m 0 (skipn skip t).
Proof.
  induction t as [|c t IH]; intros [|k]; simpl; auto.
Qed.

(** Where nothing matches the text is left as it is. *)
Lemma sub_scan_no_match (m : str -> option (nat * str)) (t : str) :
  (forall k, m (skipn k t) = None) -> sub_scan m 0 t = t.
Proof.
  induction t as [|c t IH]; intros H; simpl; [reflexivity|].
  pose proof (H 0) as H0. simpl in H0. rewrite H0.
  f_equal. apply IH. intros k. exact (H (S k)).
Qed.

Lemma run_all (p : char -> bool) (u : str) :
  (forall x, In x u -> p x = true) -> skipn (run p u) u = [].
Proof.
  induction u as [|x u IH]; intros H; simpl; [reflexivity|].
  rewrite (H x) by (left; reflexivity). simpl. apply IH.
  intros y Hy; apply H; right; exact Hy.
Qed.

Lemma run_stops (p : char -> bool) (u : str) (x : char) (r : str) :
  skipn (run p u) u = x :: r -> p x = false.
Proof.
  induction u as [|y u IH]; simpl; [discriminate|].
  destruct (p y) eqn:E; simpl; [exact IH|].
  intros [= -> _]; exact E.
Qed.

Lemma run_skipn_nil (p : char -> bool) (u : str) :
  skipn (run p u) u = [] -> forall x, In x u -> p x = true.
Proof.
  induction u as [|y u IH]; simpl; [intros _ x []|].
  destruct (p y) eqn:E; simpl; [|discriminate].
  intros H x [<- | Hx]; [exact E | apply IH; assumption].
Qed.

Lemma skipn_incl (k : nat) (u : str) (x : char) : In x (skipn k u) -> In x u.
Proof.
  revert u; induction k as [|k IH]; intros [|y u]; simpl; auto.
Qed.

(** ** [strip_tags] *)

(** When the tag pattern does not match at a [<]: the text ends there,
    or the next character is [>], or no [>] follows. *)
Lemma match_tag_none (c : char) (u : str) :
  match_tag (c :: u) = None <->
  c <> LT \/ u = [] \/ (exists r, u = GT :: r) \/ ~ In GT u.
Proof.
  unfold match_tag. destruct (c =? LT)%N eqn:Ec.
  - apply N.eqb_eq in Ec; subst c.
    destruct (run (fun x => negb (x =? GT)%N) u) as [|k] eqn:Er.
    + split; [intros _ | reflexivity].
      destruct u as [|x u]; [right; left; reflexivity|].
      simpl in Er. destruct (x =? GT)%N eqn:Ex; [|discriminate].
      apply N.eqb_eq in Ex; subst x. right; right; left; eauto.
    + destruct (skipn (S k) u) as [|x r] eqn:Es.
      * split; [intros _ | reflexivity]. right; right; right.
        rewrite <- Er in Es. intros Hin.
        apply (run_skipn_nil _ _ Es) in Hin. discriminate Hin.
      * split; [discriminate|]. intros [H | [-> | [(r' & ->) | H]]].
        -- contradiction H; reflexivity.
        -- discriminate Er.
        -- simpl in Er. discriminate Er.
        -- exfalso. rewrite <- Er in Es.
           pose proof (run_stops _ _ _ _ Es) as Hx.
           apply negb_false_iff, N.eqb_eq in Hx; subst x.
           apply H. eapply skipn_incl. rewrite Es. left; reflexivity.
  - split; [intros _; left; intros ->; discriminate Ec | reflexivity].
Qed.

Lemma match_tag_empty (t : str) (n : nat) (r : str) :
  match_tag t = Some (n, r) -> r = [] /\ 0 < n.
Proof.
  unfold match_tag. destruct t as [|c u]; [discriminate|].
  destruct (c =? LT)%N; [|discriminate].
  destruct (run _ u) as [|k]; [discriminate|].
  destruct (skipn (S k) u); [discriminate|].
  intros [= <- <-]. split; [reflexivity | lia].
Qed.

Lemma strip_tags_incl (t : str) (x : char) :
  In x (strip_tags t) -> In x t.
Proof.
  unfold strip_tags, re_sub. generalize 0 as skip.
  induction t as [|c t IH]; intros skip; cbn [sub_scan]; [tauto|].
  destruct skip as [|k]; [|intros H; right; eapply IH; exact H].
  destruct (match_tag (c :: t)) as [[n r]|] eqn:E.
  - apply match_tag_empty in E as [-> _]. cbn [app].
    intros H; right; eapply IH; exact H.
  - intros [<- | H]; [left; reflexivity | right; eapply IH; exact H].
Qed.

Lemma strip_tags_cons (c : char) (t : str) :
  strip_tags (c :: t)
  = match match_tag (c :: t) with
    | Some (n, _) => strip_tags (skipn (n - 1) t)
    | None => c :: strip_tags t
    end.
Proof.
  unfold strip_tags, re_sub. cbn [sub_scan].
  destruct (match_tag (c :: t)) as [[n r]|] eqn:E; [|reflexivity].
  apply match_tag_empty in E as [-> _]. simpl. apply sub_scan_skip.
Qed.

Lemma strip_tags_no_tag_aux (n : nat) :
  forall t, length t <= n ->
    forall k, match_tag (skipn k (strip_tags t)) = None.
Proof.
  induction n as [|n IH]; intros t Hlen k.
  - destruct t; [|simpl in Hlen; lia]. destruct k; reflexivity.
  - destruct t as [|c t]; [destruct k; reflexivity|]. simpl in Hlen.
    rewrite strip_tags_cons.
    destruct (match_tag (c :: t)) as [[m r]|] eqn:E.
    + apply IH. rewrite length_skipn. lia.
    + destruct k as [|k]; [|simpl; apply IH; lia]. simpl.
      apply match_tag_none. apply match_tag_none in E.
      destruct E as [H | [-> | [(r & ->) | H]]].
      * left; exact H.
      * right; left; reflexivity.
      * right; right; left. rewrite strip_tags_cons. simpl. eauto.
      * right; right; right. intros Hin; apply H.
        apply strip_tags_incl; exact Hin.
Qed.

(** X1.  [strip_tags] removes every tag: nowhere in its result does the
    tag pattern match, and stripping a second time changes nothing. *)
Theorem strip_tags_leaves_no_tag (text : str) :
  (forall k, match_tag (skipn k (strip_tags text)) = None)
  /\ strip_tags (strip_tags text) = strip_tags text.
Proof.
  assert (H : forall k, match_tag (skipn k (strip_tags text)) = None)
    by (apply (strip_tags_no_tag_aux (length text)); lia).
  split; [exact H|].
  apply (sub_scan_no_match match_tag). exact H.
Qed.

(** X2.  Markup that is not a complete tag is kept: a text without [<],
    and a text without [>] (a tag that is opened and never closed),
    come out of [strip_tags] unchanged. *)
Theorem strip_tags_keeps_unclosed (text : str) :
  ~ In LT text \/ ~ In GT text -> strip_tags text = text.
Proof.
  intros H. apply (sub_scan_no_match match_tag). intros k.
  destruct (skipn k text) as [|c u] eqn:E; [reflexivity|].
  apply match_tag_none. destruct H as [H | H].
  - left. intros ->. apply H. eapply skipn_incl. rewrite E. left; reflexivity.
  - right; right; right. intros Hin. apply H.
    eapply skipn_incl. rewrite E. right; exact Hin.
Qed.

Lemma strip_tags_keeps_unclosed_witness :
  strip_tags (lit "a <b without end") = lit "a <b without end".
Proof.
  apply strip_tags_keeps_unclosed. right. vm_compute.
  intros H. repeat (destruct H as [H | H]; [discriminate H|]). exact H.
Defined.

(** ** [decode_entities] *)

Lemma contains_absent (c : char) (t : str) :
  ~ In c t -> contains [c] t = false.
Proof.
  intros H. unfold contains, find. simpl.
  destruct (find_from [c] t 0) as [j|] eqn:E; [|reflexivity].
  exfalso. apply find_from_spec in E as (k & _ & _ & Hs).
  destruct (skipn k t) as [|x u] eqn:Ek; [discriminate|].
  simpl in Hs. apply andb_true_iff in Hs as [Hx _]. apply N.eqb_eq in Hx.
  subst x. apply H. eapply skipn_incl. rewrite Ek. left; reflexivity.
Qed.

(** A replacement whose pattern begins with a character that the text
    does not hold does nothing. *)
Lemma replace_absent (old new t : str) (c : char) :
  hd_error old = Some c -> ~ In c t -> replace old new t = t.
Proof.
  intros Hold H. unfold replace, re_sub. apply sub_scan_no_match. intros k.
  destruct old as [|c' old']; [discriminate|]. injection Hold as ->.
  destruct (skipn k t) as [|x u] eqn:Ek; [reflexivity|]. simpl.
  destruct (c =? x)%N eqn:Ex; [|reflexivity].
  apply N.eqb_eq in Ex; subst x. exfalso. apply H.
  eapply skipn_incl. rewrite Ek. left; reflexivity.
Qed.

Section Decoding.

Variable _html5 : str -> option str.

Import Gcide2tab.

(** X3.  A text without [&] holds no entity: [decode_entities] returns
    it unchanged, whatever the table of HTML5 names. *)
Theorem decode_entities_without_amp (text : str) :
  ~ In AMP text -> decode_entities _html5 text = text.
Proof.
  intros H. unfold decode_entities, unescape.
  rewrite (contains_absent _ _ H). cbn [negb replacements fold_left].
  repeat (rewrite (replace_absent _ _ text AMP); [|reflexivity | exact H]).
  reflexivity.
Qed.

End Decoding.

Lemma decode_entities_without_amp_witness :
  Gcide2tab.decode_entities html5_excerpt (lit "a fruit; to polish")
  = lit "a fruit; to polish".
Proof.
  apply decode_entities_without_amp. vm_compute.
  intros H. repeat (destruct H as [H | H]; [discriminate H|]). exact H.
Defined.

(** ** White space *)

Lemma lstrip_head (t : str) :
  lstrip t = [] \/ exists c r, lstrip t = c :: r /\ isspace c = false.
Proof.
  induction t as [|x t IH]; simpl; [left; reflexivity|].
  destruct (isspace x) eqn:E; [exact IH | right; eauto].
Qed.

Lemma lstrip_fixed (t : str) :
  (t = [] \/ exists c r, t = c :: r /\ isspace c = false) -> lstrip t = t.
Proof.
  intros [-> | (c & r & -> & E)]; simpl; [reflexivity | rewrite E; reflexivity].
Qed.

Lemma lstrip_suffix (t : str) : exists w, t = w ++ lstrip t.
Proof.
  induction t as [|x t [w IH]]; simpl; [exists []; reflexivity|].
  destruct (isspace x).
  - exists (x :: w). simpl. f_equal. exact IH.
  - exists []. reflexivity.
Qed.

Lemma rstrip_prefix (t : str) : exists w, t = rstrip t ++ w.
Proof.
  unfold rstrip. destruct (lstrip_suffix (rev t)) as [w Hw].
  exists (rev w). rewrite <- rev_app_distr, <- Hw, rev_involutive. reflexivity.
Qed.

Lemma rstrip_idem (t : str) : rstrip (rstrip t) = rstrip t.
Proof.
  unfold rstrip. rewrite rev_involutive.
  rewrite (lstrip_fixed (lstrip (rev t))) by apply lstrip_head. reflexivity.
Qed.

(** [strip] is idempotent: nothing is left to trim at either end of a
    trimmed text. *)
Lemma strip_idempotent (t : str) :
  strip (strip t) = strip t
  /\ lstrip (strip t) = strip t /\ rstrip (strip t) = strip t.
Proof.
  assert (Hl : lstrip (strip t) = strip t).
  { unfold strip. apply lstrip_fixed.
    destruct (rstrip (lstrip t)) as [|c r] eqn:E; [left; reflexivity|].
    right. exists c, r. split; [reflexivity|].
    destruct (rstrip_prefix (lstrip t)) as [w Hw]. rewrite E in Hw.
    destruct (lstrip_head t) as [H0 | (c' & r' & Hc & Hs)].
    - rewrite H0 in Hw. discriminate Hw.
    - rewrite Hc in Hw. simpl in Hw. injection Hw as -> _. exact Hs. }
  assert (Hr : rstrip (strip t) = strip t) by (unfold strip; apply rstrip_idem).
  split; [|split; assumption].
  unfold strip at 1. rewrite Hl. exact Hr.
Qed.

Lemma collapse_spaces_cons (c : char) (t : str) :
  collapse_spaces (c :: t)
  = if isspace c then SP :: collapse_spaces (skipn (run isspace t) t)
    else c :: collapse_spaces t.
Proof.
  unfold collapse_spaces, re_sub. cbn [sub_scan].
  unfold match_spaces. cbn [run]. destruct (isspace c); [|reflexivity].
  cbn [app]. f_equal. rewrite sub_scan_skip. f_equal. f_equal. lia.
Qed.

Lemma run_rest_head (p : char -> bool) (t : str) :
  skipn (run p t) t = []
  \/ exists x r, skipn (run p t) t = x :: r /\ p x = false.
Proof.
  destruct (skipn (run p t) t) as [|x r] eqn:E; [left; reflexivity|].
  right. exists x, r. split; [reflexivity | eapply run_stops; exact E].
Qed.

Lemma no_double_space_cons (a b : char) (u : str) :
  no_double_space (a :: b :: u)
  = negb (isspace a && isspace b) && no_double_space (b :: u).
Proof. reflexivity. Qed.

Lemma collapse_spaces_no_double_aux (n : nat) :
  forall t, length t <= n -> no_double_space (collapse_spaces t) = true.
Proof.
  induction n as [|n IH]; intros t Hlen.
  - destruct t; [reflexivity | simpl in Hlen; lia].
  - destruct t as [|c t]; [reflexivity|]. simpl in Hlen.
    rewrite collapse_spaces_cons. destruct (isspace c) eqn:Ec.
    + assert (Hrest : no_double_space
                        (collapse_spaces (skipn (run isspace t) t)) = true)
        by (apply IH; rewrite length_skipn; lia).
      destruct (run_rest_head isspace t) as [E | (x & r & E & Ex)].
      * rewrite E. reflexivity.
      * rewrite E in *. rewrite collapse_spaces_cons in *. rewrite Ex in *.
        rewrite no_double_space_cons, Ex, andb_false_r. exact Hrest.
    + assert (Hrest : no_double_space (collapse_spaces t) = true)
        by (apply IH; lia).
      destruct (collapse_spaces t) as [|b u]; [reflexivity|].
      rewrite no_double_space_cons, Ec. exact Hrest.
Qed.

Lemma no_double_space_tail (a : char) (t : str) :
  no_double_space (a :: t) = true -> no_double_space t = true.
Proof.
  destruct t as [|b t]; [reflexivity|]. rewrite no_double_space_cons.
  intros H; apply andb_true_iff in H as [_ H]; exact H.
Qed.

Lemma no_double_space_suffix (w t : str) :
  no_double_space (w ++ t) = true -> no_double_space t = true.
Proof.
  induction w as [|a w IH]; simpl app; [auto|].
  intros H. apply IH. eapply no_double_space_tail; exact H.
Qed.

Lemma no_double_space_prefix (t w : str) :
  no_double_space (t ++ w) = true -> no_double_space t = true.
Proof.
  induction t as [|a t IH]; [reflexivity|].
  destruct t as [|b t]; [reflexivity|].
  simpl app. rewrite !no_double_space_cons. intros H.
  apply andb_true_iff in H as [H1 H2]. rewrite H1. apply IH. exact H2.
Qed.

Lemma no_double_space_strip (t : str) :
  no_double_space t = true -> no_double_space (strip t) = true.
Proof.
  intros H. unfold strip.
  destruct (lstrip_suffix t) as [w Hw].
  destruct (rstrip_prefix (lstrip t)) as [w' Hw'].
  rewrite Hw in H. apply no_double_space_suffix in H.
  rewrite Hw' in H. apply no_double_space_prefix in H. exact H.
Qed.

Section Normalised.

Variable _html5 : str -> option str.

Import Gcide2tab.

(** X4.  The definition of an extracted entry is normalised: its words
    are separated by single plain spaces, and it neither begins nor ends
    with white space. *)
Theorem definition_is_normalised (fuel : nat) (t h d : str) :
  extract_entry _html5 fuel t = Ret (Some (h, d)) ->
  strip d = d /\ no_double_space d = true /\ single_line d.
Proof.
  unfold extract_entry. destruct (search_hw t); [|discriminate].
  destruct (defs_loop fuel t 0 []) as [|[|x defs]]; cbn [bind]; try discriminate.
  intros [= _ <-]. split; [apply strip_idempotent|]. split.
  - apply no_double_space_strip.
    eapply collapse_spaces_no_double_aux. apply Nat.le_refl.
  - apply single_line_strip, collapse_spaces_single_line.
Qed.

End Normalised.

Lemma definition_is_normalised_witness :
  strip (lit "outer inner text") = lit "outer inner text"
  /\ no_double_space (lit "outer inner text") = true
  /\ single_line (lit "outer inner text").
Proof.
  apply (definition_is_normalised html5_excerpt 2 nested_entry (lit "x")).
  vm_compute. reflexivity.
Defined.

(** ** [extract_def_content] *)

Lemma startswith_firstn (p u : str) :
  startswith p u = true -> firstn (length p) u = p.
Proof.
  revert u; induction p as [|x p IH]; intros [|y u]; simpl; auto; try discriminate.
  intros H. apply andb_true_iff in H as [Hx Hp]. apply N.eqb_eq in Hx; subst y.
  f_equal. apply IH; exact Hp.
Qed.

Lemma startswith_length (p u : str) :
  startswith p u = true -> length p <= length u.
Proof.
  revert u; induction p as [|x p IH]; intros [|y u]; simpl; try lia; try discriminate.
  intros H. apply andb_true_iff in H as [_ Hp]. apply IH in Hp. lia.
Qed.

(** A slice that equals a text of [n] characters lies within the text. *)
Lemma slice_inside (t s : str) (i n : nat) :
  slice t (Some i) (i + n) = s -> length s = n -> 0 < n ->
  i + n <= length t.
Proof.
  unfold slice. intros <-. rewrite length_firstn, length_skipn. lia.
Qed.

Section DefContent.

Import Gcide2tab.

Lemma def_loop_step (fuel : nat) (t : str) (start : nat) (depth : Z) (i : nat)
      (begin : option nat) :
  def_loop (S fuel) t start depth i begin
  = if i <? length t then
      if eqb_str (slice t (Some i) (i + 5)) (lit "<def>") then
        def_loop fuel t start (depth + 1) (i + 5)
                 (if (depth =? 0)%Z then Some (i + 5) else begin)
      else if eqb_str (slice t (Some i) (i + 6)) (lit "</def>") then
        if (depth - 1 =? 0)%Z then Ret (Some (slice t begin i), i + 6)
        else def_loop fuel t start (depth - 1) (i + 6) begin
      else def_loop fuel t start depth (i + 1) begin
    else Ret (None, start).
Proof. reflexivity. Qed.

(** Inside an open definition the place where its content begins does
    not move, and the scan can only return at a close tag. *)
Lemma def_loop_inside (t : str) (start b : nat) :
  forall fuel depth i d e,
    (0 < depth)%Z ->
    def_loop fuel t start depth i (Some b) = Ret (Some d, e) ->
    d = slice t (Some b) (e - 6)
    /\ i + 6 <= e /\ e <= length t
    /\ slice t (Some (e - 6)) e = lit "</def>".
Proof.
  induction fuel as [|fuel IH]; intros depth i d e Hd; [discriminate|].
  rewrite def_loop_step.
  destruct (i <? length t); [|discriminate].
  destruct (eqb_str (slice t (Some i) (i + 5)) (lit "<def>")).
  - assert (E0 : (depth =? 0)%Z = false) by (apply Z.eqb_neq; lia).
    rewrite E0. intros H. apply IH in H; [|lia].
    destruct H as (H1 & H2 & H3 & H4). repeat split; auto; lia.
  - destruct (eqb_str (slice t (Some i) (i + 6)) (lit "</def>")) eqn:E2.
    + apply eqb_str_eq in E2.
      destruct (depth - 1 =? 0)%Z eqn:E1.
      * intros [= <- <-]. replace (i + 6 - 6) with i by lia.
        repeat split; auto; try lia.
        apply (slice_inside t (lit "</def>") i 6 E2); [reflexivity | lia].
      * intros H. apply IH in H; [|apply Z.eqb_neq in E1; lia].
        destruct H as (H1 & H2 & H3 & H4). repeat split; auto; lia.
    + intros H. apply IH in H; [|exact Hd].
      destruct H as (H1 & H2 & H3 & H4). repeat split; auto; lia.
Qed.

(** X5.  Called at a [<def>], as [extract_entry] does, a successful
    [extract_def_content] returns a position [e] inside the text that
    comes just after a [</def>], and the content it returns is the text
    between the opening tag and that closing tag. *)
Theorem extract_def_content_span (t : str) (start : nat) (d : str) (e : nat) :
  startswith (lit "<def>") (skipn start t) = true ->
  extract_def_content t start = Ret (Some d, e) ->
  d = slice t (Some (start + 5)) (e - 6)
  /\ start + 11 <= e /\ e <= length t
  /\ slice t (Some (e - 6)) e = lit "</def>".
Proof.
  intros Hs. unfold extract_def_content. rewrite def_loop_step.
  assert (Hlen : start + 5 <= length t).
  { apply startswith_length in Hs. rewrite length_skipn in Hs.
    change (length (lit "<def>")) with 5 in Hs. lia. }
  assert (Hlt : (start <? length t) = true) by (apply Nat.ltb_lt; lia).
  rewrite Hlt.
  assert (Hopen : eqb_str (slice t (Some start) (start + 5)) (lit "<def>") = true).
  { apply eqb_str_eq. unfold slice.
    replace (start + 5 - start) with (length (lit "<def>")) by (simpl; lia).
    apply startswith_firstn. exact Hs. }
  rewrite Hopen. cbn [Z.eqb]. intros H.
  apply def_loop_inside in H; [|lia].
  destruct H as (H1 & H2 & H3 & H4). repeat split; auto; lia.
Qed.

Lemma firstn_5_not_open (x : char) (u : str) :
  x <> LT -> eqb_str (firstn 5 (x :: u)) (lit "<def>") = false.
Proof.
  intros Hx. destruct (eqb_str _ _) eqn:E; [|reflexivity].
  apply eqb_str_eq in E. simpl in E. injection E as E _. contradiction.
Qed.

Lemma firstn_6_not_close (x : char) (u : str) :
  x <> LT -> eqb_str (firstn 6 (x :: u)) (lit "</def>") = false.
Proof.
  intros Hx. destruct (eqb_str _ _) eqn:E; [|reflexivity].
  apply eqb_str_eq in E. simpl in E. injection E as E _. contradiction.
Qed.

(** The scan over a body without [<], up to the close tag after it. *)
Lemma def_loop_flat (pre body post : str) (start : nat) :
  let p := length pre in
  let t := pre ++ body ++ lit "</def>" ++ post in
  forall fuel j,
    j <= length body -> length body - j < fuel ->
    ~ In LT body ->
    def_loop fuel t start 1 (p + j) (Some p)
    = Ret (Some body, p + length body + 6).
Proof.
  intros p t. induction fuel as [|fuel IH]; intros j Hj Hf Hb; [lia|].
  rewrite def_loop_step.
  assert (Hlen : length t = p + length body + 6 + length post).
  { unfold t, p. rewrite !length_app. simpl. lia. }
  assert (Hlt : (p + j <? length t) = true) by (apply Nat.ltb_lt; lia).
  rewrite Hlt.
  assert (Hskip : skipn (p + j) t = skipn j body ++ lit "</def>" ++ post).
  { unfold t, p. rewrite Nat.add_comm, <- skipn_skipn.
    rewrite skipn_app, skipn_all, Nat.sub_diag. simpl.
    rewrite skipn_app.
    replace (j - length body) with 0 by lia. reflexivity. }
  unfold slice at 1 2.
  replace (p + j + 5 - (p + j)) with 5 by lia.
  replace (p + j + 6 - (p + j)) with 6 by lia.
  rewrite Hskip.
  destruct (skipn j body) as [|x u] eqn:Ej.
  - assert (j = length body).
    { apply (f_equal (@length char)) in Ej. rewrite length_skipn in Ej.
      simpl in Ej. lia. }
    subst j. simpl. f_equal. f_equal. f_equal.
    unfold slice, t, p.
    replace (length pre + length body - length pre) with (length body) by lia.
    rewrite skipn_app, skipn_all, Nat.sub_diag. simpl.
    rewrite firstn_app, firstn_all, Nat.sub_diag. simpl. apply app_nil_r.
  - assert (Hx : x <> LT).
    { intros ->. apply Hb. eapply skipn_incl. rewrite Ej. left; reflexivity. }
    assert (Hjl : j < length body).
    { apply (f_equal (@length char)) in Ej. rewrite length_skipn in Ej.
      simpl in Ej. lia. }
    change ((x :: u) ++ lit "</def>" ++ post)
      with (x :: (u ++ lit "</def>" ++ post)).
    rewrite firstn_5_not_open, firstn_6_not_close by exact Hx.
    replace (p + j + 1) with (p + S j) by lia.
    apply IH; [lia | lia | exact Hb].
Qed.

(** X6.  A definition whose body holds no [<] is returned whole: on
    [pre<def>body</def>post], called at the [<def>], the scan returns
    [body] and the position after the [</def>]. *)
Theorem extract_def_content_flat (pre body post : str) :
  ~ In LT body ->
  extract_def_content (pre ++ lit "<def>" ++ body ++ lit "</def>" ++ post)
                      (length pre)
  = Ret (Some body, length pre + 5 + length body + 6).
Proof.
  intros Hb. unfold extract_def_content. rewrite def_loop_step.
  set (t := pre ++ lit "<def>" ++ body ++ lit "</def>" ++ post).
  assert (Hlen : length t = length pre + 5 + length body + 6 + length post).
  { unfold t. rewrite !length_app. simpl. lia. }
  assert (Hlt : (length pre <? length t) = true) by (apply Nat.ltb_lt; lia).
  rewrite Hlt.
  assert (Hopen : eqb_str (slice t (Some (length pre)) (length pre + 5))
                          (lit "<def>") = true).
  { apply eqb_str_eq. unfold slice, t.
    replace (length pre + 5 - length pre) with 5 by lia.
    rewrite skipn_app, skipn_all, Nat.sub_diag. reflexivity. }
  rewrite Hopen. cbn [Z.eqb].
  pose proof (def_loop_flat (pre ++ lit "<def>") body post (length pre)
                (length t) 0) as H.
  cbv zeta in H. rewrite length_app in H. simpl length in H.
  rewrite Nat.add_0_r in H.
  replace ((pre ++ lit "<def>") ++ body ++ lit "</def>" ++ post) with t in H
    by (unfold t; rewrite <- app_assoc; reflexivity).
  apply H; [lia | lia | exact Hb].
Qed.

End DefContent.

Lemma extract_def_content_span_witness :
  lit "outer <def>inner</def> text"
  = slice nested_markup (Some (0 + 5)) (38 - 6)
  /\ 0 + 11 <= 38 /\ 38 <= length nested_markup
  /\ slice nested_markup (Some (38 - 6)) 38 = lit "</def>".
Proof.
  apply (extract_def_content_span nested_markup 0);
    vm_compute; reflexivity.
Defined.

Lemma extract_def_content_flat_witness :
  Gcide2tab.extract_def_content
    (lit "<hw>apple</hw> " ++ lit "<def>" ++ lit "a fruit" ++ lit "</def>"
     ++ lit "</p>")
    (length (lit "<hw>apple</hw> "))
  = Ret (Some (lit "a fruit"), length (lit "<hw>apple</hw> ") + 5
                               + length (lit "a fruit") + 6).
Proof.
  apply extract_def_content_flat. vm_compute.
  intros H. repeat (destruct H as [H | H]; [discriminate H|]). exact H.
Defined.

(** ** The lexicon *)

Lemma replace_char_incl (c d x : char) (t : str) :
  In x (replace [c] [d] t) -> x = d \/ In x t.
Proof.
  unfold replace, re_sub. generalize 0 as skip.
  induction t as [|y t IH]; intros skip; cbn [sub_scan]; [tauto|].
  destruct skip as [|k].
  - cbn [startswith length]. destruct (c =? y)%N; cbn [andb app Nat.sub].
    + intros [<- | H]; [left; reflexivity|].
      destruct (IH _ H); [left | right; right]; assumption.
    + intros [<- | H]; [right; left; reflexivity|].
      destruct (IH _ H); [left | right; right]; assumption.
  - intros H. destruct (IH _ H); [left | right; right]; assumption.
Qed.

Lemma replace_char_absent (c d : char) (t : str) :
  c <> d -> ~ In c (replace [c] [d] t).
Proof.
  intros Hcd. unfold replace, re_sub. generalize 0 as skip.
  induction t as [|y t IH]; intros skip; cbn [sub_scan]; [tauto|].
  destruct skip as [|k]; [|apply IH].
  cbn [startswith length]. destruct (c =? y)%N eqn:E; cbn [andb app Nat.sub].
  - intros [H | H]; [congruence | eapply IH; exact H].
  - apply N.eqb_neq in E. intros [H | H]; [congruence | eapply IH; exact H].
Qed.

(** X7.  On every line the extractor writes, the headword field holds no
    tab and no line feed, so the first tab of the line is the separator:
    splitting the line there gives back the headword and the
    definition. *)
Theorem written_line_splits_at_first_tab (entries : Gcide2tab.dict)
        (h defn : str) :
  In (h, defn) (Gcide2tab.out_lines entries) ->
  ~ In TAB h /\ ~ In LF h
  /\ Merge.split_tab (h ++ [TAB] ++ defn) = (h, defn).
Proof.
  intros Hin. unfold Gcide2tab.out_lines in Hin.
  apply in_map_iff in Hin as (k & [= <- _] & _).
  assert (Ht : ~ In TAB (strip (replace [LF] [SP] (replace [TAB] [SP] k)))).
  { intros H. apply strip_incl, replace_char_incl in H as [H | H];
      [discriminate H|].
    revert H. apply replace_char_absent. discriminate. }
  assert (Hl : ~ In LF (strip (replace [LF] [SP] (replace [TAB] [SP] k)))).
  { intros H. apply strip_incl in H. revert H.
    apply replace_char_absent. discriminate. }
  repeat split; [exact Ht | exact Hl | apply split_tab_app; exact Ht].
Qed.

Lemma written_line_splits_at_first_tab_witness :
  ~ In TAB (lit "a b") /\ ~ In LF (lit "a b")
  /\ Merge.split_tab (lit "a b" ++ [TAB] ++ lit "first")
     = (lit "a b", lit "first").
Proof.
  apply (written_line_splits_at_first_tab
           [ (lit "a" ++ [TAB] ++ lit "b", lit "first") ]).
  vm_compute. left. reflexivity.
Defined.

Section Lexicon.

Variable _html5 : str -> option str.

Import Gcide2tab.

Lemma eqb_str_neq (a b : str) : a <> b -> eqb_str a b = false.
Proof.
  intros H. destruct (eqb_str a b) eqn:E; [|reflexivity].
  apply eqb_str_eq in E. contradiction.
Qed.

Lemma dict_get_set_same (k v : str) (d : dict) :
  dict_get k (dict_set k v d) = Some v.
Proof.
  induction d as [|[k0 v0] d IH]; simpl.
  - rewrite eqb_str_refl; reflexivity.
  - destruct (eqb_str k k0) eqn:E; simpl.
    + rewrite eqb_str_refl; reflexivity.
    + rewrite E. exact IH.
Qed.

Lemma dict_get_set_other (k k' v : str) (d : dict) :
  k' <> k -> dict_get k' (dict_set k v d) = dict_get k' d.
Proof.
  intros Hne. induction d as [|[k0 v0] d IH]; simpl.
  - rewrite (eqb_str_neq _ _ Hne). reflexivity.
  - destruct (eqb_str k k0) eqn:E; simpl.
    + apply eqb_str_eq in E; subst k0.
      rewrite (eqb_str_neq _ _ Hne). reflexivity.
    + rewrite IH. reflexivity.
Qed.

Lemma dict_get_keys (k : str) (d : dict) :
  existsb (eqb_str k) (keys d)
  = match dict_get k d with Some _ => true | None => false end.
Proof.
  unfold keys. induction d as [|[k0 v0] d IH]; simpl; [reflexivity|].
  destruct (eqb_str k k0); [reflexivity | exact IH].
Qed.

(** X8.  Consolidation: a block that yields the entry [(h, v)] leaves
    every other headword as it was; if [h] is new it is added after the
    others with definition [v], and if [h] is there already its
    definition becomes the old one, [; ] and [v], its place among the
    headwords unchanged. *)
Theorem process_block_consolidates (fuel : nat) (d : dict) (block h v : str) :
  contains (lit "<hw>") block = true ->
  contains (lit "<def>") block = true ->
  extract_entry _html5 fuel (lit "<p><ent>" ++ block) = Ret (Some (h, v)) ->
  exists d',
    process_block _html5 fuel d block = Ret d'
    /\ dict_get h d' = Some (match dict_get h d with
                             | Some old => old ++ lit "; " ++ v
                             | None => v
                             end)
    /\ (forall k, k <> h -> dict_get k d' = dict_get k d)
    /\ keys d' = match dict_get h d with
                 | Some _ => keys d
                 | None => keys d ++ [h]
                 end.
Proof.
  intros Hh Hd Hx. unfold process_block. rewrite Hh, Hd, Hx. cbn [negb orb bind].
  pose proof (dict_get_keys h d) as Hk.
  destruct (dict_get h d) as [old|] eqn:G; eexists; (split; [reflexivity|]);
    (split; [apply dict_get_set_same|]);
    (split; [intros k Hne; apply dict_get_set_other; exact Hne|]);
    rewrite keys_dict_set_eq, Hk; reflexivity.
Qed.

Lemma process_block_extends (fuel : nat) (d d' : dict) (block : str) :
  process_block _html5 fuel d block = Ret d' ->
  (exists new, keys d' = keys d ++ new)
  /\ forall k v, dict_get k d = Some v ->
       exists rest, dict_get k d' = Some (v ++ rest).
Proof.
  unfold process_block. destruct (_ || _).
  - intros [= <-]. split; [exists []; symmetry; apply app_nil_r|].
    intros k v H; exists []; rewrite app_nil_r; exact H.
  - destruct (extract_entry _ _ _) as [|[[h x]|]]; cbn [bind]; try discriminate.
    + pose proof (dict_get_keys h d) as Hk.
      destruct (dict_get h d) as [old|] eqn:G; intros [= <-].
      * split; [exists []; rewrite keys_dict_set_eq, Hk; symmetry; apply app_nil_r|].
        intros k v H. destruct (eqb_str k h) eqn:E.
        -- apply eqb_str_eq in E; subst k. rewrite dict_get_set_same.
           rewrite G in H; injection H as <-. eauto.
        -- rewrite dict_get_set_other
             by (intros ->; rewrite eqb_str_refl in E; discriminate).
           exists []; rewrite app_nil_r; exact H.
      * split; [exists [h]; rewrite keys_dict_set_eq, Hk; reflexivity|].
        intros k v H. destruct (eqb_str k h) eqn:E.
        -- apply eqb_str_eq in E; subst k. congruence.
        -- rewrite dict_get_set_other
             by (intros ->; rewrite eqb_str_refl in E; discriminate).
           exists []; rewrite app_nil_r; exact H.
    + intros [= <-]. split; [exists []; symmetry; apply app_nil_r|].
      intros k v H; exists []; rewrite app_nil_r; exact H.
Qed.

(** X9.  [process_file] only adds to the lexicon: the headwords that
    were there keep their places and new ones come after them, and the
    definition of a headword that was there is the beginning of its
    definition afterwards. *)
Theorem process_file_extends (fuel : nat) (text : str) (d0 d : dict) :
  process_file _html5 fuel text d0 = Ret d ->
  (exists new, keys d = keys d0 ++ new)
  /\ forall k v, dict_get k d0 = Some v ->
       exists rest, dict_get k d = Some (v ++ rest).
Proof.
  unfold process_file. generalize (re_split match_entry_start text) as blocks.
  intros blocks; revert d0.
  induction blocks as [|b blocks IH]; intros d0; cbn [process_blocks].
  - intros [= <-]. split; [exists []; symmetry; apply app_nil_r|].
    intros k v H; exists []; rewrite app_nil_r; exact H.
  - destruct (process_block _html5 fuel d0 b) as [|d1] eqn:E; cbn [bind];
      [discriminate|].
    intros H. apply process_block_extends in E as [[n1 Hk1] Hv1].
    apply IH in H as [[n2 Hk2] Hv2]. split.
    + exists (n1 ++ n2). rewrite Hk2, Hk1, app_assoc. reflexivity.
    + intros k v Hg. apply Hv1 in Hg as [r1 Hg]. apply Hv2 in Hg as [r2 Hg].
      exists (r1 ++ r2). rewrite Hg, app_assoc. reflexivity.
Qed.

End Lexicon.

Lemma process_block_consolidates_witness :
  exists d',
    Gcide2tab.process_block html5_excerpt 2 [(lit "apple", lit "a fruit")]
      (lit "apple</ent><br/><hw>apple</hw> <def>to polish</def></p>")
    = Ret d'
    /\ Gcide2tab.dict_get (lit "apple") d'
       = Some (lit "a fruit" ++ lit "; " ++ lit "to polish")
    /\ (forall k, k <> lit "apple" ->
          Gcide2tab.dict_get k d'
          = Gcide2tab.dict_get k [(lit "apple", lit "a fruit")])
    /\ Gcide2tab.keys d' = [lit "apple"].
Proof.
  apply (process_block_consolidates html5_excerpt 2
           [(lit "apple", lit "a fruit")]
           (lit "apple</ent><br/><hw>apple</hw> <def>to polish</def></p>")
           (lit "apple") (lit "to polish"));
    vm_compute; reflexivity.
Defined.

Lemma process_file_extends_witness :
  (exists new, [lit "apple"] = [lit "apple"] ++ new)
  /\ forall k v,
       Gcide2tab.dict_get k [(lit "apple", lit "a fruit")] = Some v ->
       exists rest,
         Gcide2tab.dict_get k [(lit "apple", lit "a fruit; to polish")]
         = Some (v ++ rest).
Proof.
  apply (process_file_extends html5_excerpt 2 apple_b
           [(lit "apple", lit "a fruit")]
           [(lit "apple", lit "a fruit; to polish")]).
  vm_compute. reflexivity.
Defined.

(** ** Runs of the extractor *)

Lemma ltb_str_total (a b : str) :
  a <> b -> Gcide2tab.ltb_str a b = true \/ Gcide2tab.ltb_str b a = true.
Proof.
  revert b; induction a as [|x a IH]; intros [|y b] Hne; simpl; auto;
    try (contradiction Hne; reflexivity).
  destruct (N.lt_trichotomy x y) as [H | [H | H]].
  - left. apply orb_true_iff; left. apply N.ltb_lt; exact H.
  - subst y. rewrite N.ltb_irrefl, N.eqb_refl. simpl.
    apply IH. intros ->. apply Hne; reflexivity.
  - right. apply orb_true_iff; left. apply N.ltb_lt; exact H.
Qed.

Lemma sorted_strict (l : list str) :
  Sorted (fun a b => Gcide2tab.leb_str a b = true) l -> NoDup l ->
  Sorted (fun a b => Gcide2tab.ltb_str a b = true) l.
Proof.
  induction 1 as [|a l Hl IH Ha]; intros Hnd; constructor.
  - apply IH. inversion Hnd; assumption.
  - destruct Ha as [|b l Hab]; constructor.
    unfold Gcide2tab.leb_str in Hab. apply negb_true_iff in Hab.
    destruct (ltb_str_total a b) as [H | H]; [|exact H | congruence].
    intros ->. inversion Hnd as [|? ? Hn _]. apply Hn. left; reflexivity.
Qed.

Lemma closed_check (t : str) :
  all_defs_closed t = true ->
  forall idx, find t (lit "<def>") idx = Some idx ->
    exists d e, Gcide2tab.extract_def_content t idx = Ret (Some d, e).
Proof.
  unfold all_defs_closed. rewrite forallb_forall. intros H idx Hf.
  assert (Hin : In idx (seq 0 (S (length t)))).
  { apply in_seq. apply find_bounds in Hf. lia. }
  specialize (H idx Hin). rewrite Hf, Nat.eqb_refl in H.
  destruct (Gcide2tab.extract_def_content t idx) as [|[[d|] e]];
    try discriminate. eauto.
Qed.

Section Runs.

Variable _html5 : str -> option str.

Import Gcide2tab.

Lemma process_files_nodup (fuel : nat) (listing : list (str * str))
      (files : list str) :
  forall d d', NoDup (keys d) ->
    process_files _html5 fuel listing files d = Ret (Some d') ->
    NoDup (keys d').
Proof.
  induction files as [|f files IH]; intros d d' Hd; cbn [process_files].
  - intros [= <-]; exact Hd.
  - destruct (dir_get f listing) as [text|]; [|discriminate].
    destruct (process_file _html5 fuel text d) as [|d1] eqn:E; cbn [bind];
      [discriminate|].
    apply IH. eapply process_file_nodup; eauto.
Qed.

Lemma keys_have_values (k : str) (d : dict) :
  In k (keys d) -> dict_get k d <> None.
Proof.
  intros Hin.
  assert (H : existsb (eqb_str k) (keys d) = true).
  { apply existsb_exists. exists k; split; [exact Hin | apply eqb_str_refl]. }
  rewrite dict_get_keys in H. destruct (dict_get k d); [discriminate | discriminate H].
Qed.

(** X10.  The output of a successful run has one line for each headword
    of the lexicon: the headwords are pairwise distinct, each has a
    definition, and the lines follow the headwords in strictly
    increasing order (by code point, then by length). *)
Theorem output_one_line_per_headword (fuel : nat) (w w' : world) :
  main _html5 fuel w = Ret (0%Z, w') ->
  exists entries ks,
    out_file w' = Some (render (out_lines entries))
    /\ NoDup (keys entries)
    /\ Permutation ks (keys entries)
    /\ Sorted (fun a b => ltb_str a b = true) ks
    /\ (forall k, In k ks -> dict_get k entries <> None)
    /\ out_lines entries
       = map (fun k =>
                (strip (replace [LF] [SP] (replace [TAB] [SP] k)),
                 match dict_get k entries with Some v => v | None => [] end))
             ks.
Proof.
  unfold main. destruct (xml_dir w) as [listing|]; [|discriminate].
  destruct (filter _ _) as [|f fs]; [discriminate|].
  destruct (process_files _ _ _ _ _) as [|[entries|]] eqn:E; cbn [bind];
    try discriminate.
  intros [= <-]. exists entries, (sorted (keys entries)).
  assert (Hnd : NoDup (keys entries)).
  { eapply process_files_nodup; [|exact E]. constructor. }
  split; [reflexivity|]. split; [exact Hnd|].
  split; [apply sorted_perm|]. split.
  - apply sorted_strict; [apply sorted_sorted|].
    eapply Permutation_NoDup; [|exact Hnd].
    apply Permutation_sym, sorted_perm.
  - split; [|reflexivity]. intros k Hk. apply keys_have_values.
    eapply Permutation_in; [apply sorted_perm | exact Hk].
Qed.

(** X11.  What a run that returns leaves behind: the status is 0 or 1;
    with status 1 the output file is untouched; with status 0 the
    directory of the output path exists, the output file is written, and
    the input directory held a letter file. *)
Theorem extractor_status (fuel : nat) (w w' : world) (status : Z) :
  main _html5 fuel w = Ret (status, w') ->
  (status = 0%Z \/ status = 1%Z)
  /\ (status = 1%Z -> out_file w' = out_file w)
  /\ (status = 0%Z ->
      out_parent w' = true /\ out_file w' <> None
      /\ exists listing c text,
           xml_dir w = Some listing /\ In c alphabet
           /\ dir_get (letter_file c) listing = Some text).
Proof.
  unfold main. destruct (xml_dir w) as [listing|] eqn:Ex.
  - destruct (filter _ _) as [|f fs] eqn:Ef.
    + intros [= <- <-]. repeat split; auto; try discriminate.
    + destruct (process_files _ _ _ _ _) as [|[entries|]]; cbn [bind];
        try discriminate; intros [= <- <-]; cbn [xml_dir out_file out_parent
          mkdir_out_parent write_out]; repeat split; auto; try discriminate.
      assert (Hin : In f (f :: fs)) by (left; reflexivity).
      rewrite <- Ef in Hin. apply filter_In in Hin as [Hin Hg].
      apply in_map_iff in Hin as (c & <- & Hc).
      destruct (dir_get (letter_file c) listing) as [text|] eqn:Eg;
        [|discriminate].
      exists listing, c, text. auto.
  - intros [= <- <-]. repeat split; auto; discriminate.
Qed.

(** X12.  In an entry in which every [<def>] has its [</def>] the loop
    of [extract_entry] over the definitions ends: with [len + 2] turns
    or more it returns, and always the same list of definitions. *)
Theorem closed_entry_loop_ends (t : str) :
  (forall idx, find t (lit "<def>") idx = Some idx ->
     exists d e, extract_def_content t idx = Ret (Some d, e)) ->
  exists defs, forall fuel,
      S (S (length t)) <= fuel -> defs_loop fuel t 0 [] = Ret defs.
Proof.
  intros H.
  destruct (defs_loop_returns t H (S (S (length t))) 0 []) as [defs Hd];
    [lia|].
  exists defs. intros fuel Hle. eapply defs_loop_mono; eauto.
Qed.

End Runs.

Lemma output_one_line_per_headword_witness :
  exists entries ks,
    Some apple_output
    = Some (Gcide2tab.render (Gcide2tab.out_lines entries))
    /\ NoDup (Gcide2tab.keys entries)
    /\ Permutation ks (Gcide2tab.keys entries)
    /\ Sorted (fun a b => Gcide2tab.ltb_str a b = true) ks
    /\ (forall k, In k ks -> Gcide2tab.dict_get k entries <> None)
    /\ Gcide2tab.out_lines entries
       = map (fun k =>
                (strip (replace [LF] [SP] (replace [TAB] [SP] k)),
                 match Gcide2tab.dict_get k entries with
                 | Some v => v
                 | None => []
                 end))
             ks.
Proof.
  apply (output_one_line_per_headword html5_excerpt 2 apple_world
           (Gcide2tab.write_out (Gcide2tab.mkdir_out_parent apple_world)
                                apple_output)).
  vm_compute. reflexivity.
Defined.

Lemma extractor_status_witness :
  ((1%Z = 0%Z \/ 1%Z = 1%Z)
   /\ (1%Z = 1%Z ->
       Gcide2tab.out_file (Gcide2tab.mkdir_out_parent no_letters_world)
       = Gcide2tab.out_file no_letters_world)
   /\ (1%Z = 0%Z ->
       Gcide2tab.out_parent (Gcide2tab.mkdir_out_parent no_letters_world)
       = true
       /\ Gcide2tab.out_file (Gcide2tab.mkdir_out_parent no_letters_world)
          <> None
       /\ exists listing c text,
            Gcide2tab.xml_dir no_letters_world = Some listing
            /\ In c Gcide2tab.alphabet
            /\ Gcide2tab.dir_get (Gcide2tab.letter_file c) listing
               = Some text))
  /\ ((0%Z = 0%Z \/ 0%Z = 1%Z)
      /\ (0%Z = 1%Z ->
          Gcide2tab.out_file
            (Gcide2tab.write_out (Gcide2tab.mkdir_out_parent apple_world)
                                 apple_output)
          = Gcide2tab.out_file apple_world)
      /\ (0%Z = 0%Z ->
          Gcide2tab.out_parent
            (Gcide2tab.write_out (Gcide2tab.mkdir_out_parent apple_world)
                                 apple_output) = true
          /\ Gcide2tab.out_file
               (Gcide2tab.write_out (Gcide2tab.mkdir_out_parent apple_world)
                                    apple_output) <> None
          /\ exists listing c text,
               Gcide2tab.xml_dir apple_world = Some listing
               /\ In c Gcide2tab.alphabet
               /\ Gcide2tab.dir_get (Gcide2tab.letter_file c) listing
                  = Some text)).
Proof.
  split.
  - apply (extractor_status html5_excerpt 0 no_letters_world).
    vm_compute. reflexivity.
  - apply (extractor_status html5_excerpt 2 apple_world).
    vm_compute. reflexivity.
Defined.

Lemma closed_entry_loop_ends_witness :
  exists defs, forall fuel,
      S (S (length apple_a)) <= fuel ->
      Gcide2tab.defs_loop fuel apple_a 0 [] = Ret defs.
Proof.
  apply closed_entry_loop_ends. apply closed_check.
  vm_compute. reflexivity.
Defined.

(** ** Files without entries *)

Lemma find_from_complete (sub : str) :
  forall t k i, k <= length t -> startswith sub (skipn k t) = true ->
    exists j, find_from sub t i = Some j.
Proof.
  induction t as [|c t IH]; intros k i Hk Hs.
  - simpl in Hk. replace k with 0 in Hs by lia. simpl in *. rewrite Hs. eauto.
  - simpl. destruct (startswith sub (c :: t)) eqn:E; [eauto|].
    destruct k as [|k]; [simpl in Hs; congruence|].
    simpl in Hk, Hs. apply (IH k); [lia | exact Hs].
Qed.

Lemma contains_iff (sub t : str) :
  contains sub t = true <->
  exists k, k <= length t /\ startswith sub (skipn k t) = true.
Proof.
  unfold contains, find. simpl. split.
  - destruct (find_from sub t 0) as [j|] eqn:E; [|discriminate].
    intros _. apply find_from_spec in E as (k & _ & Hk & Hs). eauto.
  - intros (k & Hk & Hs).
    destruct (find_from_complete sub t k 0 Hk Hs) as [j ->]. reflexivity.
Qed.

Lemma startswith_app (p u v : str) :
  startswith p u = true -> startswith p (u ++ v) = true.
Proof.
  revert u; induction p as [|x p IH]; intros [|y u]; simpl; auto; try discriminate.
  intros H. apply andb_true_iff in H as [H1 H2].
  rewrite H1. simpl. apply IH; exact H2.
Qed.

(** A text found in a part of another text is found in the whole. *)
Lemma contains_part (sub a b c : str) :
  contains sub b = true -> contains sub (a ++ b ++ c) = true.
Proof.
  rewrite !contains_iff. intros (k & Hk & Hs).
  exists (length a + k). split; [rewrite !length_app; lia|].
  rewrite Nat.add_comm, <- skipn_skipn.
  rewrite skipn_app, skipn_all, Nat.sub_diag. simpl.
  rewrite skipn_app. replace (k - length b) with 0 by lia. simpl.
  apply startswith_app. exact Hs.
Qed.

(** The pieces that [re.split] returns are parts of the text. *)
Lemma split_scan_part (m : str -> option nat) :
  forall t skip cur b,
    (0 < skip -> cur = []) ->
    In b (split_scan m skip cur t) ->
    exists a c, rev cur ++ t = a ++ b ++ c.
Proof.
  induction t as [|x t IH]; intros skip cur b Hs; cbn [split_scan].
  - intros [<- | []]. exists [], []. simpl. reflexivity.
  - destruct skip as [|k].
    + destruct (m (x :: t)) as [n|].
      * intros [<- | Hin].
        -- exists [], (x :: t). reflexivity.
        -- apply IH in Hin as (a & c & E); [|reflexivity]. simpl in E.
           exists (rev cur ++ x :: a), c. rewrite E, <- app_assoc. reflexivity.
      * intros Hin. apply IH in Hin as (a & c & E); [|lia].
        exists a, c. rewrite <- E. simpl. rewrite <- app_assoc. reflexivity.
    + rewrite (Hs (Nat.lt_0_succ k)). intros Hin.
      apply IH in Hin as (a & c & E); [|reflexivity]. simpl in E.
      exists (x :: a), c. simpl. rewrite E. reflexivity.
Qed.

Lemma re_split_contains (m : str -> option nat) (sub text block : str) :
  contains sub text = false -> In block (re_split m text) ->
  contains sub block = false.
Proof.
  intros Hc Hin. apply split_scan_part in Hin as (a & c & E); [|lia].
  simpl in E. destruct (contains sub block) eqn:Eb; [|reflexivity].
  rewrite E, (contains_part sub a block c Eb) in Hc. discriminate Hc.
Qed.

Section NoEntries.

Variable _html5 : str -> option str.

Import Gcide2tab.

Lemma process_file_skips (text : str) :
  contains (lit "<hw>") text = false \/ contains (lit "<def>") text = false ->
  forall fuel d, process_file _html5 fuel text d = Ret d.
Proof.
  intros H fuel d. unfold process_file.
  assert (Hb : forall block, In block (re_split match_entry_start text) ->
                 process_block _html5 fuel d block = Ret d).
  { intros block Hin. unfold process_block.
    destruct H as [H | H];
      rewrite (re_split_contains _ _ _ _ H Hin); cbn [negb orb];
        [reflexivity | rewrite orb_true_r; reflexivity]. }
  revert Hb. generalize (re_split match_entry_start text) as blocks.
  induction blocks as [|b blocks IH]; intros Hb; cbn [process_blocks];
    [reflexivity|].
  rewrite Hb by (left; reflexivity). cbn [bind].
  apply IH. intros block Hin. apply Hb. right; exact Hin.
Qed.

(** X13.  A letter file whose text holds no [<hw>], or no [<def>], adds
    nothing to the lexicon: [process_file] returns the lexicon it was
    given, whatever the fuel. *)
Theorem process_file_without_markers (text : str) :
  contains (lit "<hw>") text = false \/ contains (lit "<def>") text = false ->
  forall fuel d, process_file _html5 fuel text d = Ret d.
Proof. exact (process_file_skips text). Qed.



End NoEntries.

Lemma process_file_without_markers_witness :
  Gcide2tab.process_file html5_excerpt 0
    (lit "<p><ent>x</ent><def>a definition without headword</def></p>")
    [(lit "apple", lit "a fruit")]
  = Ret [(lit "apple", lit "a fruit")].
Proof.
  apply process_file_without_markers. left. vm_compute. reflexivity.
Defined.


(** ** The merger's lines *)

Section MergerLines.

Import Merge.

Lemma split_tab_join (ln : str) :
  In TAB ln -> ln = fst (split_tab ln) ++ [TAB] ++ snd (split_tab ln).
Proof.
  induction ln as [|x ln IH]; simpl; [tauto|].
  destruct (x =? TAB)%N eqn:E.
  - apply N.eqb_eq in E; subst x. reflexivity.
  - intros [H | H]; [apply N.eqb_neq in E; congruence|].
    destruct (split_tab ln) as [h d]. simpl in *. f_equal. apply IH; exact H.
Qed.

Lemma split_tab_fst_no_tab (ln : str) : ~ In TAB (fst (split_tab ln)).
Proof.
  induction ln as [|x ln IH]; simpl; [tauto|].
  destruct (x =? TAB)%N eqn:E; [simpl; tauto|].
  destruct (split_tab ln) as [h d]. simpl in *.
  intros [H | H]; [apply N.eqb_neq in E; congruence | exact (IH H)].
Qed.

(** X15.  Tagging a supplementary line changes its definition only: the
    written line has the same headword, and its definition is the tag
    followed by the old definition.  Lines that differ are written as
    lines that differ. *)
Theorem char_line_tags_definition :
  (forall ln, In TAB ln ->
     split_tab (char_line ln)
     = (fst (split_tab ln), CHAR_TAG ++ snd (split_tab ln)))
  /\ (forall ln1 ln2, char_line ln1 = char_line ln2 -> ln1 = ln2).
Proof.
  assert (Htag : forall ln, In TAB ln ->
            char_line ln
            = fst (split_tab ln) ++ [TAB] ++ CHAR_TAG ++ snd (split_tab ln)).
  { intros ln Hin. rewrite (split_tab_join ln Hin) at 1.
    apply char_line_tagged, split_tab_fst_no_tab. }
  split.
  - intros ln Hin. rewrite (Htag ln Hin).
    apply (split_tab_app (fst (split_tab ln)) (CHAR_TAG ++ snd (split_tab ln))).
    apply split_tab_fst_no_tab.
  - intros ln1 ln2 H.
    destruct (existsb (N.eqb TAB) ln1) eqn:E1;
      destruct (existsb (N.eqb TAB) ln2) eqn:E2.
    + apply existsb_tab in E1, E2.
      rewrite (Htag ln1 E1), (Htag ln2 E2) in H.
      assert (Hs : split_tab (fst (split_tab ln1) ++ [TAB]
                              ++ CHAR_TAG ++ snd (split_tab ln1))
                   = split_tab (fst (split_tab ln2) ++ [TAB]
                                ++ CHAR_TAG ++ snd (split_tab ln2)))
        by (rewrite H; reflexivity).
      rewrite !split_tab_app in Hs by apply split_tab_fst_no_tab.
      injection Hs as Hh Hd.
      rewrite (split_tab_join ln1 E1), (split_tab_join ln2 E2), Hh, Hd.
      reflexivity.
    + exfalso. unfold char_line in H at 2. rewrite E2 in H.
      apply existsb_tab in E1. rewrite (Htag ln1 E1) in H.
      assert (Hin : In TAB ln2).
      { rewrite <- H. apply in_or_app. right. left. reflexivity. }
      apply existsb_tab in Hin. congruence.
    + exfalso. unfold char_line in H at 1. rewrite E1 in H.
      apply existsb_tab in E2. rewrite (Htag ln2 E2) in H.
      assert (Hin : In TAB ln1).
      { rewrite H. apply in_or_app. right. left. reflexivity. }
      apply existsb_tab in Hin. congruence.
    + unfold char_line in H. rewrite E1, E2 in H. exact H.
Qed.

Lemma files_of_dirs_set_other (k k' : str) (fs : list (str * str))
      (dirs : list (str * list (str * str))) :
  k' <> k -> files_of k' (dirs_set k fs dirs) = files_of k' dirs.
Proof.
  intros Hne. induction dirs as [|[k0 old] dirs IH]; simpl.
  - destruct (eqb_str k' k) eqn:E; [|reflexivity].
    apply eqb_str_eq in E. contradiction.
  - destruct (eqb_str k k0) eqn:E; simpl.
    + apply eqb_str_eq in E; subst k0.
      destruct (eqb_str k' k) eqn:E'; [|reflexivity].
      apply eqb_str_eq in E'. contradiction.
    + rewrite IH. reflexivity.
Qed.

Lemma file_get_file_set_other (n n' text : str) (fs : list (str * str)) :
  n' <> n -> file_get n' (file_set n text fs) = file_get n' fs.
Proof.
  intros Hne. induction fs as [|[n0 old] fs IH]; simpl.
  - destruct (eqb_str n' n) eqn:E; [|reflexivity].
    apply eqb_str_eq in E. contradiction.
  - destruct (eqb_str n n0) eqn:E; simpl.
    + apply eqb_str_eq in E; subst n0.
      destruct (eqb_str n' n) eqn:E'; [|reflexivity].
      apply eqb_str_eq in E'. contradiction.
    + rewrite IH. reflexivity.
Qed.

Lemma read_file_write_out_other (bf name bf' name' content : str) (w : world) :
  files_of bf (book_dirs w) <> None ->
  bf' <> bf \/ name' <> name ->
  read_file bf' name' (write_out bf name content w) = read_file bf' name' w.
Proof.
  intros Hex Hne. unfold read_file, write_out; simpl.
  destruct (eqb_str bf' bf) eqn:E.
  - apply eqb_str_eq in E; subst bf'.
    destruct Hne as [H | H]; [contradiction H; reflexivity|].
    rewrite files_of_dirs_set.
    destruct (files_of bf (book_dirs w)) as [fs|]; [|contradiction Hex; reflexivity].
    apply file_get_file_set_other; exact H.
  - rewrite files_of_dirs_set_other; [reflexivity|].
    intros ->. rewrite eqb_str_refl in E. discriminate.
Qed.

(** X16.  The merger does not touch what it reads: when [main] goes on
    to the packaging, the base lexicon is as it was, every file other
    than the union file is as it was, and in particular the character
    list is. *)
Theorem merger_keeps_its_inputs (argv : list str) (w w' : world) :
  main argv w = Packaging w' ->
  exists book_folder char_file_name output_basename,
    nth_error argv 1 = Some book_folder
    /\ config book_folder BOOK_CONFIG = Some (char_file_name, output_basename)
    /\ gcide_txt w' = gcide_txt w
    /\ (forall bf name,
          bf <> book_folder \/ name <> output_basename ++ lit ".txt" ->
          read_file bf name w' = read_file bf name w)
    /\ read_file book_folder char_file_name w'
       = read_file book_folder char_file_name w.
Proof.
  unfold main.
  destruct argv as [|a0 [|bf argv]]; try discriminate.
  destruct (config bf BOOK_CONFIG) as [[cfn ob]|] eqn:Ec; [|discriminate].
  destruct (gcide_txt w) as [gt|] eqn:Eg; [|discriminate].
  destruct (read_file bf cfn w) as [ct|] eqn:Er; [|discriminate].
  intros [= <-]. exists bf, cfn, ob.
  assert (Hex : files_of bf (book_dirs w) <> None).
  { unfold read_file in Er. destruct (files_of bf (book_dirs w)); discriminate. }
  assert (Hmk : mkdir_book bf w = w).
  { unfold mkdir_book. destruct (files_of bf (book_dirs w));
      [reflexivity | contradiction Hex; reflexivity]. }
  rewrite Hmk.
  split; [reflexivity|]. split; [exact Ec|]. split; [exact Eg|].
  assert (Hother : forall bf' name,
            bf' <> bf \/ name <> ob ++ lit ".txt" ->
            read_file bf' name (write_out bf (ob ++ lit ".txt")
                                  (render (union_lines (read_lines gt)
                                             (nonblank (read_lines ct)))) w)
            = read_file bf' name w).
  { intros bf' name Hne. apply read_file_write_out_other; assumption. }
  split; [exact Hother|].
  apply Hother. right.
  simpl in Ec. destruct (eqb_str bf (lit "speaker-for-the-dead"));
    [|discriminate].
  injection Ec as <- <-. vm_compute. discriminate.
Qed.

End MergerLines.

Lemma merger_keeps_its_inputs_witness :
  exists book_folder char_file_name output_basename,
    nth_error merge_argv 1 = Some book_folder
    /\ Merge.config book_folder Merge.BOOK_CONFIG
       = Some (char_file_name, output_basename)
    /\ Merge.gcide_txt
         (Merge.write_out book union_name
            (lit "dog" ++ [TAB] ++ lit "a canine" ++ [LF]
             ++ lit "dog" ++ [TAB]
             ++ lit "[Character] loyal companion of the hero" ++ [LF])
            (merge_world dog_base dog_sup))
       = Merge.gcide_txt (merge_world dog_base dog_sup)
    /\ (forall bf name,
          bf <> book_folder \/ name <> output_basename ++ lit ".txt" ->
          Merge.read_file bf name
            (Merge.write_out book union_name
               (lit "dog" ++ [TAB] ++ lit "a canine" ++ [LF]
                ++ lit "dog" ++ [TAB]
                ++ lit "[Character] loyal companion of the hero" ++ [LF])
               (merge_world dog_base dog_sup))
          = Merge.read_file bf name (merge_world dog_base dog_sup))
    /\ Merge.read_file book_folder char_file_name
         (Merge.write_out book union_name
            (lit "dog" ++ [TAB] ++ lit "a canine" ++ [LF]
             ++ lit "dog" ++ [TAB]
             ++ lit "[Character] loyal companion of the hero" ++ [LF])
            (merge_world dog_base dog_sup))
       = Merge.read_file book_folder char_file_name
           (merge_world dog_base dog_sup).
Proof.
  apply (merger_keeps_its_inputs merge_argv (merge_world dog_base dog_sup)).
  vm_compute. reflexivity.
Defined.

(** ** Reading lines back *)

Section ReadingBack.

Import Merge.

Lemma islinebreak_isspace (c : char) :
  islinebreak c = true -> isspace c = true.
Proof.
  unfold islinebreak, isspace.
  rewrite !orb_true_iff, !andb_true_iff, !N.leb_le, !N.eqb_eq. lia.
Qed.

Lemma solid_no_break (c : char) : isspace c = false -> islinebreak c = false.
Proof.
  intros H. destruct (islinebreak c) eqn:E; [|reflexivity].
  apply islinebreak_isspace in E. congruence.
Qed.

Lemma scan_line (l rest cur : str) :
  (forall c, In c l -> islinebreak c = false) ->
  splitlines_scan false cur (l ++ rest)
  = splitlines_scan false (rev l ++ cur) rest.
Proof.
  revert cur; induction l as [|x l IH]; intros cur H; [reflexivity|].
  simpl app. cbn [splitlines_scan andb].
  rewrite (H x) by (left; reflexivity).
  rewrite IH by (intros c Hc; apply H; right; exact Hc).
  simpl rev. rewrite <- app_assoc. reflexivity.
Qed.

Lemma scan_first (u : str) :
  forall cur, cur <> [] ->
    exists l ls, splitlines_scan false cur u = (rev cur ++ l) :: ls.
Proof.
  induction u as [|x u IH]; intros cur Hc; cbn [splitlines_scan andb].
  - destruct cur; [contradiction Hc; reflexivity|].
    exists [], []. rewrite app_nil_r. reflexivity.
  - destruct (islinebreak x).
    + exists [], (splitlines_scan (x =? CR)%N [] u).
      rewrite app_nil_r. reflexivity.
    + destruct (IH (x :: cur)) as (l & ls & E); [discriminate|].
      exists (x :: l), ls. rewrite E. simpl. rewrite <- app_assoc. reflexivity.
Qed.

Lemma scan_last (z : char) :
  islinebreak z = false ->
  forall u after_cr cur,
    exists ls l, splitlines_scan after_cr cur (u ++ [z]) = ls ++ [l ++ [z]].
Proof.
  intros Hz.
  assert (Hlf : (z =? LF)%N = false).
  { destruct (z =? LF)%N eqn:E; [|reflexivity].
    apply N.eqb_eq in E; subst z. discriminate Hz. }
  induction u as [|x u IH]; intros after_cr cur; simpl app;
    cbn [splitlines_scan].
  - rewrite Hlf, andb_false_r, Hz. exists [], (rev cur). reflexivity.
  - destruct (after_cr && (x =? LF)%N); [apply IH|].
    destruct (islinebreak x).
    + destruct (IH (x =? CR)%N []) as (ls & l & E).
      exists (rev cur :: ls), l. rewrite E. reflexivity.
    + apply IH.
Qed.

Lemma rstrip_fixed (u : str) : ends_solid u -> rstrip u = u.
Proof.
  intros (r & c & -> & Hc). unfold rstrip.
  rewrite rev_app_distr. simpl. rewrite Hc. simpl.
  rewrite rev_involutive. reflexivity.
Qed.

Lemma strip_ends (t : str) :
  strip t = [] \/ (starts_solid (strip t) /\ ends_solid (strip t)).
Proof.
  destruct (strip_idempotent t) as (_ & Hl & Hr).
  destruct (strip t) as [|c r] eqn:E; [left; reflexivity|]. right. split.
  - destruct (lstrip_head (c :: r)) as [H | (c' & r' & H & Hs)];
      rewrite Hl in H; [discriminate|].
    injection H as <- <-. exists c, r. auto.
  - unfold rstrip in Hr.
    assert (Hrev : lstrip (rev (c :: r)) = rev (c :: r)).
    { rewrite <- (rev_involutive (lstrip (rev (c :: r)))), Hr. reflexivity. }
    destruct (lstrip_head (rev (c :: r))) as [H | (c' & r' & H & Hs)];
      rewrite Hrev in H.
    + apply (f_equal (@length char)) in H. rewrite length_rev in H.
      discriminate H.
    + exists (rev r'), c'. split; [|exact Hs].
      rewrite <- (rev_involutive (c :: r)), H. reflexivity.
Qed.

Lemma read_lines_ends (text : str) :
  read_lines text = []
  \/ (starts_solid (hd [] (read_lines text))
      /\ ends_solid (last (read_lines text) [])).
Proof.
  unfold read_lines, splitlines.
  destruct (strip_ends text) as [-> | [(c & r & E & Hc) (r' & c' & E' & Hc')]];
    [left; reflexivity|].
  right. split.
  - rewrite E. cbn [splitlines_scan andb].
    rewrite (solid_no_break c Hc).
    destruct (scan_first r [c]) as (l & ls & ->); [discriminate|].
    exists c, l. auto.
  - rewrite E'.
    destruct (scan_last c' (solid_no_break c' Hc') r' false [])
      as (ls & l & ->).
    rewrite last_last. exists l, c'. auto.
Qed.

(** X17.  What [main] reads from a file: no line holds a line boundary,
    the first line does not begin with white space and the last does not
    end with white space; so neither of the two is blank. *)
Theorem read_lines_ends_are_solid (text : str) :
  (forall ln c, In ln (read_lines text) -> In c ln -> islinebreak c = false)
  /\ (read_lines text = []
      \/ (starts_solid (hd [] (read_lines text))
          /\ ends_solid (last (read_lines text) []))).
Proof.
  split; [intros ln c; apply read_lines_no_break | apply read_lines_ends].
Qed.

Lemma render_join (lines : list str) :
  lines <> [] -> render lines = join [LF] lines ++ [LF].
Proof.
  unfold render. induction lines as [|l lines IH]; intros Hne;
    [contradiction Hne; reflexivity|].
  destruct lines as [|l2 lines].
  - simpl. rewrite app_nil_r. reflexivity.
  - change (concat (map (fun ln => ln ++ [LF]) (l :: l2 :: lines)))
      with ((l ++ [LF]) ++ concat (map (fun ln => ln ++ [LF]) (l2 :: lines))).
    rewrite IH by discriminate.
    change (join [LF] (l :: l2 :: lines))
      with (l ++ [LF] ++ join [LF] (l2 :: lines)).
    rewrite <- !app_assoc. reflexivity.
Qed.

Lemma splitlines_join (lines : list str) :
  (forall ln c, In ln lines -> In c ln -> islinebreak c = false) ->
  lines <> [] -> last lines [] <> [] ->
  splitlines (join [LF] lines) = lines.
Proof.
  unfold splitlines. induction lines as [|l lines IH]; intros Hnb Hne Hlast;
    [contradiction Hne; reflexivity|].
  destruct lines as [|l2 lines].
  - simpl join. rewrite <- (app_nil_r l) at 1.
    rewrite scan_line by (intros c Hc; eapply Hnb; [left; reflexivity | exact Hc]).
    rewrite app_nil_r. cbn [splitlines_scan].
    simpl in Hlast.
    destruct (rev l) as [|x r] eqn:E.
    + apply (f_equal (@rev char)) in E. rewrite rev_involutive in E.
      simpl in E. contradiction.
    + rewrite <- E, rev_involutive. reflexivity.
  - change (join [LF] (l :: l2 :: lines))
      with (l ++ LF :: join [LF] (l2 :: lines)).
    rewrite scan_line by (intros c Hc; eapply Hnb; [left; reflexivity | exact Hc]).
    cbn [splitlines_scan andb]. rewrite app_nil_r, rev_involutive.
    change (islinebreak LF) with true. cbv iota.
    change ((LF =? CR)%N) with false.
    f_equal. apply IH.
    + intros ln c Hin. apply Hnb. right; exact Hin.
    + discriminate.
    + exact Hlast.
Qed.

Lemma join_starts (lines : list str) :
  starts_solid (hd [] lines) -> starts_solid (join [LF] lines).
Proof.
  destruct lines as [|l [|l2 lines]]; simpl; auto.
  intros (c & r & -> & Hc). exists c, (r ++ LF :: join [LF] (l2 :: lines)).
  auto.
Qed.

Lemma join_ends (lines : list str) :
  ends_solid (last lines []) -> ends_solid (join [LF] lines).
Proof.
  induction lines as [|l lines IH]; [auto|].
  destruct lines as [|l2 lines]; [auto|].
  intros H.
  change (join [LF] (l :: l2 :: lines))
    with (l ++ [LF] ++ join [LF] (l2 :: lines)).
  destruct (IH H) as (r & c & E & Hc).
  exists (l ++ [LF] ++ r), c. rewrite E, <- !app_assoc. auto.
Qed.

(** Lines without line boundaries, the first beginning and the last
    ending with a character that is not white space, are read back as
    they were written. *)
Lemma read_lines_render (lines : list str) :
  (forall ln c, In ln lines -> In c ln -> islinebreak c = false) ->
  lines <> [] ->
  starts_solid (hd [] lines) -> ends_solid (last lines []) ->
  read_lines (render lines) = lines.
Proof.
  intros Hnb Hne Hs He. unfold read_lines. rewrite render_join by exact Hne.
  assert (Hstrip : strip (join [LF] lines ++ [LF]) = join [LF] lines).
  { unfold strip.
    destruct (join_starts lines Hs) as (c & r & E & Hc).
    rewrite lstrip_fixed by (right; exists c, (r ++ [LF]); rewrite E; auto).
    unfold rstrip. rewrite rev_app_distr. simpl.
    apply (rstrip_fixed _ (join_ends lines He)). }
  rewrite Hstrip. apply splitlines_join; [exact Hnb | exact Hne|].
  destruct He as (r & c & -> & _). destruct r; discriminate.
Qed.

Lemma lstrip_keeps (t : str) (c : char) :
  In c t -> isspace c = false -> In c (lstrip t).
Proof.
  induction t as [|x t IH]; simpl; [tauto|].
  intros [<- | H] Hc; [rewrite Hc; left; reflexivity|].
  destruct (isspace x); [apply IH; assumption | right; exact H].
Qed.

Lemma solid_not_blank (ln : str) : starts_solid ln -> strip ln <> [].
Proof.
  intros (c & r & -> & Hc) E.
  assert (Hin : In c (strip (c :: r))).
  { unfold strip, rstrip. apply (proj1 (in_rev _ _)).
    apply lstrip_keeps; [|exact Hc]. apply (proj1 (in_rev _ _)).
    apply lstrip_keeps; [left; reflexivity | exact Hc]. }
  rewrite E in Hin. destruct Hin.
Qed.

Lemma ends_solid_not_blank (ln : str) : ends_solid ln -> strip ln <> [].
Proof.
  intros (r & c & -> & Hc) E.
  assert (Hin : In c (strip (r ++ [c]))).
  { unfold strip, rstrip. apply (proj1 (in_rev _ _)).
    apply lstrip_keeps; [|exact Hc]. apply (proj1 (in_rev _ _)).
    apply lstrip_keeps; [apply in_or_app; right; left; reflexivity | exact Hc]. }
  rewrite E in Hin. destruct Hin.
Qed.

Lemma char_line_starts (ln : str) :
  starts_solid ln -> starts_solid (char_line ln).
Proof.
  intros Hs. unfold char_line.
  destruct (existsb (N.eqb TAB) ln) eqn:E; [|exact Hs].
  apply existsb_tab in E. pose proof (split_tab_join ln E) as Hj.
  destruct (split_tab ln) as [h d]. simpl in Hj.
  destruct Hs as (c & r & Hln & Hc). destruct h as [|x h].
  - rewrite Hln in Hj. simpl in Hj. injection Hj as -> _. discriminate Hc.
  - rewrite Hln in Hj. simpl in Hj. injection Hj as <- _.
    exists c, (h ++ [TAB] ++ CHAR_TAG ++ d). auto.
Qed.

Lemma char_line_ends (ln : str) :
  ends_solid ln -> ends_solid (char_line ln).
Proof.
  intros He. unfold char_line.
  destruct (existsb (N.eqb TAB) ln) eqn:E; [|exact He].
  apply existsb_tab in E. pose proof (split_tab_join ln E) as Hj.
  destruct (split_tab ln) as [h d]. simpl fst in Hj. simpl snd in Hj.
  destruct He as (r & c & Hln & Hc).
  destruct (rev d) as [|y d'] eqn:Ed.
  - apply (f_equal (@rev char)) in Ed. rewrite rev_involutive in Ed.
    simpl in Ed. subst d. rewrite Hln in Hj.
    change (h ++ [TAB] ++ []) with (h ++ [TAB]) in Hj.
    apply app_inj_tail in Hj as [_ ->]. discriminate Hc.
  - apply (f_equal (@rev char)) in Ed. rewrite rev_involutive in Ed.
    simpl in Ed. subst d. rewrite Hln in Hj.
    assert (Hy : y = c).
    { replace (h ++ [TAB] ++ rev d' ++ [y])
        with ((h ++ [TAB] ++ rev d') ++ [y]) in Hj
        by (rewrite <- !app_assoc; reflexivity).
      apply app_inj_tail in Hj as [_ ->]. reflexivity. }
    subst y. exists (h ++ [TAB] ++ CHAR_TAG ++ rev d'), c.
    split; [rewrite <- !app_assoc; reflexivity | exact Hc].
Qed.

Lemma filter_hd (p : str -> bool) (l : list str) :
  p (hd [] l) = true -> l <> [] -> hd [] (filter p l) = hd [] l.
Proof.
  destruct l as [|x l]; [intros _ H; contradiction H; reflexivity|].
  simpl. intros -> _. reflexivity.
Qed.

Lemma filter_last (p : str -> bool) (l : list str) :
  p (last l []) = true -> l <> [] ->
  last (filter p l) [] = last l [] /\ filter p l <> [].
Proof.
  induction l as [|x l IH]; [intros _ H; contradiction H; reflexivity|].
  destruct l as [|y l].
  - simpl. intros -> _. split; [reflexivity | discriminate].
  - intros Hp _. change (last (x :: y :: l) []) with (last (y :: l) []) in *.
    destruct (IH Hp) as [Hl Hne]; [discriminate|].
    change (filter p (x :: y :: l))
      with (if p x then x :: filter p (y :: l) else filter p (y :: l)).
    destruct (p x); [|auto]. split; [|discriminate].
    destruct (filter p (y :: l)) as [|z f] eqn:Ef;
      [contradiction Hne; reflexivity|].
    exact Hl.
Qed.

Lemma nonblank_pred (ln : str) :
  strip ln <> [] ->
  match strip ln with [] => false | _ :: _ => true end = true.
Proof. destruct (strip ln); [intros H; contradiction H|]; reflexivity. Qed.

(** X18.  The union file reads back as it was written: reading it the
    way [main] reads its inputs gives exactly the lines that were
    written, in order. *)
Theorem union_file_reads_back (gcide_text char_text : str) :
  let lines := union_lines (read_lines gcide_text)
                           (nonblank (read_lines char_text)) in
  read_lines (render lines) = lines.
Proof.
  intros lines.
  destruct lines as [|l0 ls0] eqn:El; [reflexivity|]. rewrite <- El.
  assert (Hne : lines <> []) by (rewrite El; discriminate).
  pose proof (read_lines_ends gcide_text) as Hg.
  pose proof (read_lines_ends char_text) as Hc.
  set (base := read_lines gcide_text) in *.
  set (sup := read_lines char_text) in *.
  assert (Hsup : nonblank sup = []
                 \/ (starts_solid (hd [] (nonblank sup))
                     /\ ends_solid (last (nonblank sup) []))).
  { destruct Hc as [-> | [Hs He]]; [left; reflexivity|]. right.
    assert (Hn : sup <> []).
    { intros E. rewrite E in Hs. destruct Hs as (c & r & H & _).
      discriminate H. }
    unfold nonblank.
    rewrite filter_hd; [|apply nonblank_pred, solid_not_blank, Hs | exact Hn].
    destruct (filter_last (fun ln => match strip ln with
                                     | [] => false
                                     | _ :: _ => true
                                     end) sup) as [-> _];
      [apply nonblank_pred, ends_solid_not_blank, He | exact Hn | auto]. }
  apply read_lines_render.
  - intros ln c. apply union_lines_no_break.
  - exact Hne.
  - unfold lines, union_lines.
    destruct Hg as [Eb | [Hs _]].
    + rewrite Eb. simpl app.
      destruct Hsup as [E | [Hs _]].
      * exfalso. apply Hne. unfold lines, union_lines. rewrite Eb, E.
        reflexivity.
      * destruct (nonblank sup) as [|x xs]; [exact Hs|].
        simpl. apply char_line_starts. exact Hs.
    + destruct base as [|b bs]; [|exact Hs].
      destruct Hs as (c & r & H & _). discriminate H.
  - unfold lines, union_lines.
    destruct Hsup as [E | [_ He]].
    + rewrite E. simpl map. rewrite app_nil_r.
      destruct Hg as [Eb | [_ He]]; [|exact He].
      exfalso. apply Hne. unfold lines, union_lines. rewrite Eb, E.
      reflexivity.
    + destruct (nonblank sup) as [|x xs] eqn:Ex.
      * destruct He as (r & c & H & _). destruct r; discriminate H.
      * assert (Hmap : map char_line (x :: xs) <> []) by discriminate.
        destruct (exists_last Hmap) as (ys & y & Ey).
        rewrite Ey, app_assoc, last_last.
        assert (Hy : y = char_line (last (x :: xs) [])).
        { rewrite <- (last_last ys y []), <- Ey.
          clear. revert x. induction xs as [|z xs IH]; intros x;
            [reflexivity|]. apply (IH z). }
        rewrite Hy. apply char_line_ends. exact He.
Qed.

End ReadingBack.

(** ** The packaging *)

Section PackagingProps.

Import Packaging.

Lemma truthy_some (v : option str) :
  truthy v = true <-> exists c r, v = Some (c :: r).
Proof.
  destruct v as [[|c r]|]; simpl; split; try discriminate; eauto;
    intros (c' & r' & H); discriminate H.
Qed.

(** X19.  The script ends with status 0 exactly when [tab2opf] returned
    0, the OPF file is there afterwards, a [kindlegen] was found (and
    exists, if it was named by [KINDLEGEN]) and [kindlegen] returned 0
    or 1: a return code of 1, which it gives when it builds with
    warnings, is a success.  The files left are those [kindlegen]
    left. *)
Theorem packaging_succeeds_iff (s : system) (book_folder output_basename : str)
        (w w' : Merge.world) :
  packaging s book_folder output_basename w = (0%Z, w') <->
  exists w2 k rc,
    run_tab2opf s book_folder (output_basename ++ lit ".txt") w = (0%Z, w2)
    /\ Merge.read_file book_folder (output_basename ++ lit ".opf") w2 <> None
    /\ find_kindlegen s = Some k /\ k <> []
    /\ (truthy (environ s (lit "KINDLEGEN")) = true -> path_exists s k = true)
    /\ run_kindlegen s k book_folder (output_basename ++ lit ".opf") w2
       = (rc, w')
    /\ (rc = 0%Z \/ rc = 1%Z).
Proof.
  unfold packaging. split.
  - destruct (run_tab2opf s book_folder _ w) as [rc1 w2] eqn:E1.
    destruct (rc1 =? 0)%Z eqn:Erc1; cbn [negb];
      [|intros [= -> _]; discriminate Erc1].
    apply Z.eqb_eq in Erc1; subst rc1.
    destruct (Merge.read_file book_folder _ w2) eqn:Eopf; [|discriminate].
    destruct (find_kindlegen s) as [[|c k]|] eqn:Ek; cbn [truthy negb];
      try discriminate.
    destruct (truthy (environ s (lit "KINDLEGEN")) && negb (path_exists s (c :: k)))
      eqn:Eenv; [discriminate|].
    destruct (run_kindlegen s (c :: k) book_folder _ w2) as [rc w3] eqn:E3.
    destruct ((rc =? 0)%Z || (rc =? 1)%Z) eqn:Erc; cbn [negb].
    + intros [= <-]. exists w2, (c :: k), rc.
      split; [reflexivity|]. split; [rewrite Eopf; discriminate|].
      split; [reflexivity|]. split; [discriminate|]. split.
      * intros Ht. rewrite Ht in Eenv. simpl in Eenv.
        apply negb_false_iff in Eenv. exact Eenv.
      * split; [exact E3|].
        apply orb_true_iff in Erc as [H | H]; apply Z.eqb_eq in H; auto.
    + intros [= -> _]. discriminate Erc.
  - intros (w2 & k & rc & E1 & Eopf & Ek & Hk & Henv & E3 & Hrc).
    rewrite E1. cbn [Z.eqb negb].
    destruct (Merge.read_file book_folder _ w2); [|contradiction Eopf; reflexivity].
    rewrite Ek. destruct k as [|c k]; [contradiction Hk; reflexivity|].
    cbn [truthy negb].
    destruct (truthy (environ s (lit "KINDLEGEN"))) eqn:Et.
    + rewrite (Henv eq_refl). cbn [negb andb]. rewrite E3.
      destruct Hrc as [-> | ->]; reflexivity.
    + cbn [andb]. rewrite E3. destruct Hrc as [-> | ->]; reflexivity.
Qed.

(** X20.  A [KINDLEGEN] that is set but blank hides the [kindlegen] of
    the search path: [find_kindlegen] returns the empty string, and the
    script does not end with status 0. *)
Theorem blank_kindlegen_variable_fails (s : system)
        (book_folder output_basename v : str) (w : Merge.world) :
  environ s (lit "KINDLEGEN") = Some v -> v <> [] -> strip v = [] ->
  find_kindlegen s = Some []
  /\ fst (packaging s book_folder output_basename w) <> 0%Z.
Proof.
  intros Hv Hne Hs.
  assert (Hf : find_kindlegen s = Some []).
  { unfold find_kindlegen. rewrite Hv.
    destruct v as [|c r]; [contradiction Hne; reflexivity|].
    cbn [truthy]. rewrite Hs. reflexivity. }
  split; [exact Hf|].
  unfold packaging.
  destruct (run_tab2opf s book_folder _ w) as [rc1 w2].
  destruct (rc1 =? 0)%Z eqn:Erc1; cbn [negb fst].
  - destruct (Merge.read_file book_folder _ w2); [|discriminate].
    rewrite Hf. cbn [truthy negb fst]. discriminate.
  - apply Z.eqb_neq in Erc1. exact Erc1.
Qed.

End PackagingProps.

Lemma packaging_succeeds_iff_witness :
  Packaging.packaging path_system book (lit "speaker-characters-and-gcide")
    (merge_world dog_base dog_sup)
  = (0%Z,
     Merge.write_out book (lit "speaker-characters-and-gcide.opf")
       (lit "<package/>") (merge_world dog_base dog_sup)).
Proof.
  apply (proj2 (packaging_succeeds_iff path_system book
                  (lit "speaker-characters-and-gcide")
                  (merge_world dog_base dog_sup) _)).
  exists (Merge.write_out book (lit "speaker-characters-and-gcide.opf")
            (lit "<package/>") (merge_world dog_base dog_sup)),
    (lit "/usr/bin/kindlegen"), 1%Z.
  repeat split; try (vm_compute; reflexivity); try (vm_compute; discriminate).
  right. reflexivity.
Defined.

Lemma blank_kindlegen_variable_fails_witness :
  Packaging.find_kindlegen blank_env_system = Some []
  /\ fst (Packaging.packaging blank_env_system book
            (lit "speaker-characters-and-gcide")
            (merge_world dog_base dog_sup)) <> 0%Z.
Proof.
  apply (blank_kindlegen_variable_fails blank_env_system book
           (lit "speaker-characters-and-gcide") (lit "  ")).
  - vm_compute. reflexivity.
  - discriminate.
  - vm_compute. reflexivity.
Defined.

(** ** The headword span *)

Lemma startswith_split (p u : str) :
  startswith p u = true -> u = p ++ skipn (length p) u.
Proof.
  revert u; induction p as [|x p IH]; intros [|y u]; simpl; auto; try discriminate.
  intros H. apply andb_true_iff in H as [Hx Hp]. apply N.eqb_eq in Hx; subst y.
  f_equal. apply IH; exact Hp.
Qed.

Lemma run_firstn (p : char -> bool) (u : str) (x : char) :
  In x (firstn (run p u) u) -> p x = true.
Proof.
  induction u as [|y u IH]; simpl; [tauto|].
  destruct (p y) eqn:E; simpl; [|tauto].
  intros [<- | H]; [exact E | apply IH; exact H].
Qed.

Lemma match_hw_span (t g : str) :
  match_hw t = Some g ->
  exists post, t = lit "<hw>" ++ g ++ lit "</hw>" ++ post /\ ~ In LT g.
Proof.
  unfold match_hw. destruct (startswith (lit "<hw>") t) eqn:E1; [|discriminate].
  set (u := skipn 4 t). set (k := run (fun x => negb (x =? LT)%N) u).
  destruct (startswith (lit "</hw>") (skipn k u)) eqn:E2; [|discriminate].
  intros [= <-]. exists (skipn 5 (skipn k u)). split.
  - rewrite (startswith_split _ _ E1) at 1. f_equal.
    change (skipn (length (lit "<hw>")) t) with u.
    rewrite <- (firstn_skipn k u) at 1. f_equal.
    apply (startswith_split _ _ E2).
  - intros Hin. apply run_firstn in Hin. discriminate Hin.
Qed.

Lemma search_hw_span (t g : str) :
  search_hw t = Some g ->
  exists pre post,
    t = pre ++ lit "<hw>" ++ g ++ lit "</hw>" ++ post /\ ~ In LT g.
Proof.
  induction t as [|c t IH]; cbn [search_hw].
  - destruct (match_hw []) eqn:E; [|discriminate]. intros [= ->].
    apply match_hw_span in E as (post & E & Hn). exists [], post. auto.
  - destruct (match_hw (c :: t)) eqn:E.
    + intros [= ->]. apply match_hw_span in E as (post & E & Hn).
      exists [], post. auto.
    + intros H. apply IH in H as (pre & post & -> & Hn).
      exists (c :: pre), post. auto.
Qed.

Section HeadwordSpan.

Variable _html5 : str -> option str.

Import Gcide2tab.

(** X21.  The headword of an extracted entry comes from a span
    [<hw>...</hw>] of the entry whose text holds no [<]: it is that
    text, trimmed and decoded. *)
Theorem headword_comes_from_span (fuel : nat) (t h d : str) :
  extract_entry _html5 fuel t = Ret (Some (h, d)) ->
  exists pre span post,
    t = pre ++ lit "<hw>" ++ span ++ lit "</hw>" ++ post
    /\ ~ In LT span
    /\ h = decode_entities _html5 (strip span).
Proof.
  intros H. apply extract_entry_headword in H as (span & Hs & ->).
  apply search_hw_span in Hs as (pre & post & -> & Hn).
  exists pre, span, post. auto.
Qed.

End HeadwordSpan.

Lemma headword_comes_from_span_witness :
  exists pre span post,
    nested_entry = pre ++ lit "<hw>" ++ span ++ lit "</hw>" ++ post
    /\ ~ In LT span
    /\ lit "x" = Gcide2tab.decode_entities html5_excerpt (strip span).
Proof.
  apply (headword_comes_from_span html5_excerpt 2 nested_entry (lit "x")
           (lit "outer inner text")).
  vm_compute. reflexivity.
Defined.

(** ** The exits of the merger *)

(** X22.  When the identifier is missing or unknown, or the base
    lexicon or the character list does not exist, [main] of the merger
    leaves with status 1 before it reads or writes a file: the files
    are as they were. *)
Theorem merger_fails_cleanly (argv : list str) (w : Merge.world) :
  (nth_error argv 1 = None
   \/ exists book_folder,
        nth_error argv 1 = Some book_folder
        /\ (Merge.config book_folder Merge.BOOK_CONFIG = None
            \/ exists char_file_name output_basename,
                 Merge.config book_folder Merge.BOOK_CONFIG
                 = Some (char_file_name, output_basename)
                 /\ (Merge.gcide_txt w = None
                     \/ Merge.read_file book_folder char_file_name w
                        = None))) ->
  Merge.main argv w = Merge.Exit 1 w.
Proof.
  unfold Merge.main. intros H.
  destruct argv as [|a0 [|bf argv]]; try reflexivity.
  destruct H as [H | (bf' & [= <-] & H)]; [discriminate H|].
  destruct H as [-> | (cfn & ob & -> & H)]; [reflexivity|].
  destruct H as [-> | H]; [reflexivity|].
  destruct (Merge.gcide_txt w); [rewrite H|]; reflexivity.
Qed.

(** The four ways to fail: no identifier, an identifier that is not in
    the table, no base lexicon, no character list. *)
Lemma merger_fails_cleanly_witness :
  Merge.main [lit "merge_gcide_with_characters.py"]
             (merge_world dog_base dog_sup)
  = Merge.Exit 1 (merge_world dog_base dog_sup)
  /\ Merge.main [lit "merge_gcide_with_characters.py"; lit "enders-game"]
                (merge_world dog_base dog_sup)
     = Merge.Exit 1 (merge_world dog_base dog_sup)
  /\ Merge.main merge_argv
                {| Merge.gcide_txt := None;
                   Merge.book_dirs :=
                     [(book, [(lit "speaker-characters.txt", dog_sup)])] |}
     = Merge.Exit 1
         {| Merge.gcide_txt := None;
            Merge.book_dirs :=
              [(book, [(lit "speaker-characters.txt", dog_sup)])] |}
  /\ Merge.main merge_argv
                {| Merge.gcide_txt := Some dog_base;
                   Merge.book_dirs := [(book, [])] |}
     = Merge.Exit 1
         {| Merge.gcide_txt := Some dog_base;
            Merge.book_dirs := [(book, [])] |}.
Proof.
  split; [|split; [|split]]; apply merger_fails_cleanly.
  - left. reflexivity.
  - right. exists (lit "enders-game").
    split; [reflexivity|]. left. vm_compute. reflexivity.
  - right. exists book. split; [reflexivity|]. right.
    exists (lit "speaker-characters.txt"), (lit "speaker-characters-and-gcide").
    split; [vm_compute; reflexivity|]. left. reflexivity.
  - right. exists book. split; [reflexivity|]. right.
    exists (lit "speaker-characters.txt"), (lit "speaker-characters-and-gcide").
    split; [vm_compute; reflexivity|]. right. vm_compute. reflexivity.
Defined.

(** ** From the extractor to the merger *)

Lemma render_as_lines (lines : list (str * str)) :
  Gcide2tab.render lines
  = Merge.render (map (fun '(h, d) => h ++ [TAB] ++ d) lines).
Proof.
  unfold Gcide2tab.render, Merge.render.
  induction lines as [|[h d] lines IH]; [reflexivity|].
  cbn [map concat]. rewrite IH, <- !app_assoc. reflexivity.
Qed.

Lemma hd_map_line (lines : list (str * str)) :
  hd [] (map (fun '(h, d) => h ++ [TAB] ++ d) lines)
  = match lines with
    | [] => []
    | (h, d) :: _ => h ++ [TAB] ++ d
    end.
Proof. destruct lines as [|[h d] lines]; reflexivity. Qed.

Lemma last_map_line (lines : list (str * str)) :
  lines <> [] ->
  last (map (fun '(h, d) => h ++ [TAB] ++ d) lines) []
  = fst (last lines ([], [])) ++ [TAB] ++ snd (last lines ([], [])).
Proof.
  induction lines as [|[h d] lines IH]; intros Hne;
    [contradiction Hne; reflexivity|].
  destruct lines as [|x lines]; [reflexivity|].
  change (last ((h, d) :: x :: lines) ([], [])) with (last (x :: lines) ([], [])).
  rewrite <- IH by discriminate. reflexivity.
Qed.

(** X23.  The base lexicon as the merger reads it: when no headword the
    extractor wrote holds a line boundary, the first headword is not
    empty and the last definition ends with a character that is not
    white space, the merger reads the output of the extractor as the
    lines that were written, [headword<TAB>definition] each. *)
Theorem merger_reads_extractor_output (entries : Gcide2tab.dict) :
  let lines := Gcide2tab.out_lines entries in
  all_single_line entries ->
  lines <> [] ->
  (forall h d c, In (h, d) lines -> In c h -> Merge.islinebreak c = false) ->
  fst (hd ([], []) lines) <> [] ->
  ends_solid (snd (last lines ([], []))) ->
  Merge.read_lines (Gcide2tab.render lines)
  = map (fun '(h, d) => h ++ [TAB] ++ d) lines.
Proof.
  intros lines Hall Hne Hh Hfirst Hlast.
  rewrite render_as_lines. apply read_lines_render.
  - intros ln c Hin Hc. apply in_map_iff in Hin as ([h d] & <- & Hin).
    apply in_app_or in Hc as [Hc | Hc]; [eapply Hh; eauto|].
    destruct Hc as [<- | Hc]; [reflexivity|].
    destruct (Merge.islinebreak c) eqn:E; [|reflexivity].
    pose proof (out_lines_single_line entries h d Hall Hin) as Hs.
    rewrite (Hs c Hc (islinebreak_isspace c E)) in E. discriminate E.
  - destruct lines; [contradiction Hne; reflexivity | discriminate].
  - rewrite hd_map_line. destruct lines as [|[h d] ls] eqn:El;
      [contradiction Hne; reflexivity|].
    simpl in Hfirst.
    assert (Hin : In (h, d) (Gcide2tab.out_lines entries))
      by (fold lines; rewrite El; left; reflexivity).
    unfold Gcide2tab.out_lines in Hin.
    apply in_map_iff in Hin as (k & [= Hk _] & _).
    destruct (strip_ends (replace [LF] [SP] (replace [TAB] [SP] k)))
      as [E | [(c & r & E & Hc) _]]; rewrite Hk in E.
    + contradiction.
    + exists c, (r ++ [TAB] ++ d). rewrite E. auto.
  - rewrite last_map_line by exact Hne.
    destruct Hlast as (r & c & -> & Hc).
    exists (fst (last lines ([], [])) ++ [TAB] ++ r), c.
    rewrite <- !app_assoc. auto.
Qed.

Lemma merger_reads_extractor_output_witness :
  Merge.read_lines
    (Gcide2tab.render
       (Gcide2tab.out_lines [(lit "apple", lit "a fruit; to polish")]))
  = map (fun '(h, d) => h ++ [TAB] ++ d)
        (Gcide2tab.out_lines [(lit "apple", lit "a fruit; to polish")]).
Proof.
  apply (merger_reads_extractor_output
           [(lit "apple", lit "a fruit; to polish")]).
  - constructor; [|constructor]. simpl snd. intros c Hc Hs.
    revert Hs. vm_compute in Hc.
    repeat (destruct Hc as [<- | Hc]; [vm_compute; congruence|]).
    destruct Hc.
  - vm_compute. discriminate.
  - intros h d c Hin Hc. vm_compute in Hin.
    destruct Hin as [[= <- <-] | []]. vm_compute in Hc.
    repeat (destruct Hc as [<- | Hc]; [reflexivity|]). destruct Hc.
  - vm_compute. discriminate.
  - exists (lit "a fruit; to polis"), 104%N. split; reflexivity.
Defined.
